(** * Zero-API: route discovery, response envelope and fallback handlers

    A shallow embedding of the Express host of the repository.  The
    source holds the host twice: mounted under [/api] (module fields
    [meta] and [onStart]) and, in the first half of index.js, mounted
    under [/ladybug] (module fields [config] and [execute]).  The two
    differ in names and constants only, so every definition takes the
    deployment as a [flavor]; the names are those of the [/api] host.

    Conventions of the model.
    - A JavaScript value that can be serialised is a [json]; [None] in an
      [option json] is [undefined].
    - An object is a finite map from its own property names to values.
      Property order only shows in the serialised text and is not part
      of the model.  The properties every object inherits from
      [Object.prototype] are modelled where the program reads a property
      under a name taken from a module ([object_prototype]).
    - The properties of a module's [meta] have the types the data model
      gives them (strings, a list of strings, booleans).
    - Strings are byte strings; [toLowerCase] acts on ASCII letters.
    - Express's route matching and path compiler, the body parsers, the
      static middleware, the file system, the clock and the process
      metrics are inputs of the model.
    - A thrown value is an error with a message, or it is [null] or
      [undefined]; the two are kept apart because the program's [catch]
      blocks read [error.message]. *)

From Stdlib Require Import QArith Ascii.
From stdpp Require Import base option list gmap strings sets pretty.

Set Warnings "-register-all".

Open Scope string_scope.
Open Scope list_scope.

(** ** JavaScript values *)

Inductive json :=
| JNull
| JBool (b : bool)
| JNum (q : Q)
| JStr (s : string)
| JArr (items : list json)
| JObj (fields : gmap string json).

(** [completion A] is the result of evaluating an expression: a value,
    a thrown error with its message, or a thrown [null] or
    [undefined]. *)
Inductive completion (A : Type) :=
| Normal (a : A)
| Throw (message : string)
| ThrowNullish.
Arguments Normal {A} a.
Arguments Throw {A} message.
Arguments ThrowNullish {A}.

#[global] Instance completion_ret : MRet completion := fun _ a => Normal a.
#[global] Instance completion_bind : MBind completion := fun _ _ k c =>
  match c with
  | Normal a => k a
  | Throw e => Throw e
  | ThrowNullish => ThrowNullish
  end.

(** ToBoolean. *)
Definition truthy (v : option json) : bool :=
  match v with
  | None => false
  | Some JNull => false
  | Some (JBool b) => b
  | Some (JNum q) => negb (Qnum q =? 0)%Z
  | Some (JStr s) => negb (String.eqb s "")
  | Some (JArr _) => true
  | Some (JObj _) => true
  end.

(** [v === null]. *)
Definition is_null (v : json) : bool :=
  match v with
  | JNull => true
  | _ => false
  end.

(** [typeof v === 'object']: true of objects, of arrays and of [null]. *)
Definition typeof_object (v : json) : bool :=
  match v with
  | JNull | JArr _ | JObj _ => true
  | JBool _ | JNum _ | JStr _ => false
  end.

(** [a || b]. *)
Definition js_or (a b : option json) : option json :=
  if truthy a then a else b.

(** [v || d] where [d] is a defined value: the result is defined. *)
Definition or_default (v : option json) (d : json) : json :=
  match js_or v (Some d) with
  | Some x => x
  | None => d
  end.

(** [v.k] for the property names the program reads (status, apiSettings,
    operator, version): reading a property of [null] or [undefined]
    throws a TypeError; primitives and arrays have no such property. *)
Definition member (v : option json) (k : string) : completion (option json) :=
  match v with
  | None => Throw "TypeError: Cannot read properties of undefined"
  | Some JNull => Throw "TypeError: Cannot read properties of null"
  | Some (JObj fields) => Normal (fields !! k)
  | Some _ => Normal None
  end.

(** The same read where the receiver is known not to be nullish. *)
Definition prop (v : option json) (k : string) : option json :=
  match v with
  | Some (JObj fields) => fields !! k
  | _ => None
  end.

(** Decimal name of an array index, as in [String(i)]. *)
Definition index_key (i : nat) : string := pretty i.

(** Own enumerable properties, the ones an object spread copies: the
    fields of an object, the indexed elements of an array, nothing for
    [null] and the primitives that reach a spread here. *)
Definition own_props (v : json) : gmap string json :=
  match v with
  | JObj fields => fields
  | JArr items => list_to_map (imap (fun i x => (index_key i, x)) items)
  | _ => ∅
  end.

(** [{...base, ...v}]: the properties of [v] are written over [base]. *)
Definition spread (base : gmap string json) (v : json) : gmap string json :=
  own_props v ∪ base.

(** ** Deployments *)

Inductive flavor := Api | Ladybug.

Definition api_prefix (fl : flavor) : string :=
  match fl with
  | Api => "/api"
  | Ladybug => "/ladybug"
  end.

(** ** Response envelope middleware *)

(** The object literal of [res.json] before [...data] is spread into it. *)
Definition envelope_literal (fl : flavor) (status operator version : json)
    (timestamp : string) : gmap string json :=
  match fl with
  | Api =>
      <["version" := version]>
        (<["timestamp" := JStr timestamp]>
           (<["operator" := operator]>
              (<["status" := status]> ∅)))
  | Ladybug =>
      <["ladybug" := JStr "🐞"]>
        (<["timestamp" := JStr timestamp]>
           (<["version" := version]>
              (<["framework" := JStr "Ladybug API Framework"]>
                 (<["developer" := operator]>
                    (<["status" := status]> ∅)))))
  end.

Definition default_operator (fl : flavor) : json :=
  match fl with
  | Api => JStr "Ladybug APIs"
  | Ladybug => JStr "AjiroDesu"
  end.

Definition default_version (fl : flavor) : json :=
  match fl with
  | Api => JStr "1.0.0"
  | Ladybug => JStr "Ladybug bot"
  end.

(** [res.json] as replaced by the middleware; the result is the value
    handed to Express's own [res.json], that is, the body the client
    receives.  [now] is [new Date().toISOString()] at the call. *)
Definition res_json (fl : flavor) (settings : json) (now : string)
    (data : json) : completion json :=
  if truthy (Some data) && typeof_object data then
    status ← member (Some data) "status";
    apiSettings ← member (Some settings) "apiSettings";
    operator ← (if truthy apiSettings then member apiSettings "operator"
                else Normal apiSettings);
    version ← member (Some settings) "version";
    Normal (JObj (spread
      (envelope_literal fl
         (or_default status (JStr "success"))
         (or_default operator (default_operator fl))
         (or_default version (default_version fl))
         now)
      data))
  else Normal data.

(** The envelope as the specification words it: the defaults
    [status: "success"], the operator (or developer) and the version
    drawn from the settings, the timestamp, and for the ladybug
    deployment the framework name and the marker. *)
Definition envelope_defaults (fl : flavor) (settings : json) (now : string)
    : gmap string json :=
  envelope_literal fl (JStr "success")
    (or_default (prop (prop (Some settings) "apiSettings") "operator")
       (default_operator fl))
    (or_default (prop (Some settings) "version") (default_version fl))
    now.

(** The hardcoded settings used when settings.json is absent or
    unreadable. *)
Definition fallback_settings (fl : flavor) : json :=
  match fl with
  | Api =>
      JObj {[ "apiSettings" := JObj {[ "operator" := JStr "Ladybug APIs" ]} ]}
  | Ladybug =>
      JObj (<["apiSettings" := JObj {[ "operator" := JStr "AjiroDesu" ]}]>
             (<["version" := JStr "Ladybug bot"]>
                {[ "name" := JStr "LADYBUG BOT API" ]}))
  end.


(** What the start-up finds at settings.json. *)
Inductive settings_file :=
| Absent
| Unparsable
| Parsed (v : json).

(** The [try] block that sets [settings].  An absent or unparsable
    file gives the hardcoded object.  The ladybug deployment also logs
    [settings.name] and [settings.version] inside the block, which
    throws when the file holds [null], so [null] is replaced as well;
    the other deployment keeps whatever [JSON.parse] returned. *)
Definition load_settings (fl : flavor) (f : settings_file) : json :=
  match f with
  | Absent | Unparsable => fallback_settings fl
  | Parsed v =>
      match fl with
      | Api => v
      | Ladybug => if is_null v then fallback_settings Ladybug else v
      end
  end.

(** What the start-up prints about the settings before it scans the
    [api] folder.  index.js interpolates [settings.name],
    [settings.version] and [settings.apiSettings.operator] in its
    banner, outside any [try]: the last read throws when the settings
    have no [apiSettings], and the start-up ends there.  The other
    deployment prints a fixed text. *)
Definition banner (fl : flavor) (settings : json) : completion unit :=
  match fl with
  | Api => Normal tt
  | Ladybug =>
      _ ← member (Some settings) "name";
      _ ← member (Some settings) "version";
      apiSettings ← member (Some settings) "apiSettings";
      _ ← member apiSettings "operator";
      Normal tt
  end.

(** ** Strings *)

(** [s.split(c)] for a one-character separator: the segments between
    the occurrences of [c]; never empty. *)
Fixpoint split (c : ascii) (s : string) : list string :=
  match s with
  | EmptyString => [""]
  | String a rest =>
      if Ascii.eqb a c then "" :: split c rest
      else match split c rest with
           | [] => [String a ""]
           | seg :: segs => String a seg :: segs
           end
  end.

(** [s.includes(c)]. *)
Fixpoint includes (c : ascii) (s : string) : bool :=
  match s with
  | EmptyString => false
  | String a rest => Ascii.eqb a c || includes c rest
  end.

Definition lower (a : ascii) : ascii :=
  let n := nat_of_ascii a in
  if Nat.leb 65 n && Nat.leb n 90 then ascii_of_nat (n + 32) else a.

(** [s.toLowerCase()]. *)
Fixpoint toLowerCase (s : string) : string :=
  match s with
  | EmptyString => EmptyString
  | String a rest => String (lower a) (toLowerCase rest)
  end.

Definition upper (a : ascii) : ascii :=
  let n := nat_of_ascii a in
  if Nat.leb 97 n && Nat.leb n 122 then ascii_of_nat (n - 32) else a.

(** [s.toUpperCase()]. *)
Fixpoint toUpperCase (s : string) : string :=
  match s with
  | EmptyString => EmptyString
  | String a rest => String (upper a) (toUpperCase rest)
  end.

(** The suffix of [s] that starts at its last dot. *)
Fixpoint from_last_dot (s : string) : option string :=
  match s with
  | EmptyString => None
  | String a rest =>
      match from_last_dot rest with
      | Some ext => Some ext
      | None => if Ascii.eqb a "." then Some s else None
      end
  end.

(** [path.extname(file)] for a directory entry name (no separator in
    it): a dot in first position starts no extension, and [".."] has
    none. *)
Definition extname (file : string) : string :=
  match file with
  | EmptyString => ""
  | String _ rest =>
      if String.eqb file ".." then ""
      else default "" (from_last_dot rest)
  end.

(** [path.join(dir, file)] for a directory and one of its entries. *)
Definition path_join (dir file : string) : string := dir +:+ "/" +:+ file.

(** Truthiness of a string-valued property that may be absent, and
    [v || d] for it. *)
Definition str_truthy (v : option string) : bool :=
  match v with
  | Some s => negb (String.eqb s "")
  | None => false
  end.

Definition str_or (v : option string) (d : string) : string :=
  match v with
  | Some s => if String.eqb s "" then d else s
  | None => d
  end.

Definition JNat (n : nat) : json := JNum (inject_Z (Z.of_nat n)).

(** ** Requests and handlers *)

Record request := { req_method : string; req_url : string }.

(** What a module's handler does with one request, as the wrapper sees
    it: in order, it lets time pass or calls [res.status(code).json(data)];
    then its promise fulfils, rejects (or the handler throws) with a
    value whose [message] reads as given, rejects (or the handler
    throws) with [null] or [undefined], or stays pending for ever. *)
Inductive action :=
| Sleep (ms : N)
| Respond (code : nat) (data : json).

Inductive settlement :=
| Fulfils
| Rejects (message : string)
| RejectsNullish
| Pending.

Record run := { actions : list action; settles : settlement }.

Definition handler := request → run.

(** ** Route modules *)

Module Meta.
(** The [meta] object of a module ([config] in the ladybug deployment,
    where [path] is called [endpoint]); [None] is an absent property. *)
Record t := {
  path : option string;
  name : option string;
  method : option string;
  description : option string;
  category : option string;
  author : option string;
  version : option string;
  tags : option (list string);
  deprecated : option bool;
  rateLimit : option json;
  authentication : option bool;
  ladybugFeature : option bool
}.
End Meta.

(** [module.exports] of a route file: [meta] is [None] when the
    property is absent or not an object, [onStart] ([execute] in the
    ladybug deployment) is [None] when absent or not a function. *)
Record exports := {
  meta : option Meta.t;
  onStart : option handler
}.

(** What becomes of [require(filePath)] and of the registration that
    may follow.  [require] throws a value whose [message] reads as
    given; it throws [null] or [undefined]; it returns the exports ([None] standing for
    [null] or [undefined]) and Express takes the route if the file
    comes to register one; or it returns the exports and Express,
    compiling the route path in [app[method](routePath, ...)], refuses
    it with an error of the given message. *)
Inductive required :=
| RequireThrows (message : string)
| RequireThrowsNullish
| Returned (module : option exports)
| Refused (module : exports) (message : string).

Module Route.
(** An element of [apiModules]. The last two fields exist in the
    ladybug deployment only, where [path] is called [endpoint]. *)
Record t := {
  name : string;
  description : string;
  category : string;
  path : string;
  author : json;
  method : string;
  version : string;
  tags : list string;
  deprecated : bool;
  rateLimit : json;
  authentication : option bool;
  ladybugFeature : option bool
}.
End Route.

Module LoadError.
(** An element of [loadErrors]; [error] is [error.message] as the
    loader prints it. *)
Record t := { file : string; error : string; timestamp : string }.
End LoadError.

(** A route of the Express application: [app[method](path, ...)]. *)
Inductive target :=
| ModuleRoute (name : string) (onStart : handler)
| Builtin (id : string)
| Page (file : string).

Record layer := { l_method : string; l_path : string; l_target : target }.

(** The directory tree under the [api] folder, as [readdirSync] and
    [statSync] show it.  [Unreadable] is an entry for which [statSync]
    throws (a dangling link, say), or a directory that [readdirSync]
    cannot list; [message] is that of the error. *)
Inductive entry :=
| Directory (name : string) (children : list entry)
| RegularFile (name : string) (content : required)
| Special (name : string)
| Unreadable (name : string) (message : string).

Definition entry_name (e : entry) : string :=
  match e with
  | Directory name _ => name
  | RegularFile name _ => name
  | Special name => name
  | Unreadable name _ => name
  end.

(** The variables the loader writes, the routes it has registered on
    the application, and the message of the exception that has escaped
    [loadModules], if one has: the start-up ends there, before the
    server listens. *)
Record loader := {
  totalRoutes : nat;
  apiModules : list Route.t;
  loadErrors : list LoadError.t;
  registered : list layer;
  uncaught : option string
}.

Definition loader_init : loader :=
  {| totalRoutes := 0; apiModules := []; loadErrors := []; registered := [];
     uncaught := None |}.

(** An exception escapes the walk. *)
Definition halt (message : string) (st : loader) : loader :=
  {| totalRoutes := totalRoutes st;
     apiModules := apiModules st;
     loadErrors := loadErrors st;
     registered := registered st;
     uncaught := Some message |}.

Definition validMethods : list string :=
  ["get"; "post"; "put"; "delete"; "patch"; "head"; "options"].

Definition throw_if (b : bool) (message : string) : completion unit :=
  if b then Throw message else Normal tt.

Definition some_or_throw {A} (v : option A) (message : string) : completion A :=
  match v with
  | Some a => Normal a
  | None => Throw message
  end.

Definition msg_meta (fl : flavor) : string :=
  match fl with
  | Api => "Missing or invalid meta object"
  | Ladybug => "Missing or invalid config object (Ladybug modules require config)"
  end.

Definition msg_onStart (fl : flavor) : string :=
  match fl with
  | Api => "Missing or invalid onStart function"
  | Ladybug => "Missing or invalid execute function (Ladybug modules require execute)"
  end.

Definition msg_required (fl : flavor) : string :=
  match fl with
  | Api => "Missing required meta.path or meta.name"
  | Ladybug => "Missing required config.endpoint or config.name"
  end.

(** The public path a module is mounted at, and the path shown in the
    registry. *)
Definition routePath (fl : flavor) (path : string) : string :=
  api_prefix fl +:+ default "" (split "?" path !! 0).

Definition displayPath (fl : flavor) (path : string) : string :=
  routePath fl path +:+
    (if includes "?" path then "?" +:+ default "" (split "?" path !! 1)
     else "").

Section Loader.
Variable fl : flavor.
(** The settings; index.js reads [settings.apiSettings.operator] for its
    banner before it scans, so that read cannot throw in the scan. *)
Variable settings : json.
(** [clock k] is [new Date().toISOString()] when the loader records
    its [k]-th error (counting from 0). *)
Variable clock : nat → string.

Definition route_author (meta : Meta.t) : json :=
  match fl with
  | Api => JStr (str_or (Meta.author meta) "Unknown")
  | Ladybug =>
      if str_truthy (Meta.author meta) then JStr (default "" (Meta.author meta))
      else or_default (prop (prop (Some settings) "apiSettings") "operator")
             (JStr "AjiroDesu")
  end.

Definition default_category : string :=
  match fl with
  | Api => "Uncategorized"
  | Ladybug => "General"
  end.

(** The element pushed on [apiModules]. *)
Definition route_of (meta : Meta.t) (path : string) : Route.t :=
  {| Route.name := default "" (Meta.name meta);
     Route.description := str_or (Meta.description meta) "No description provided";
     Route.category := str_or (Meta.category meta) default_category;
     Route.path := displayPath fl path;
     Route.author := route_author meta;
     Route.method := str_or (Meta.method meta) "GET";
     Route.version := str_or (Meta.version meta) "1.0.0";
     Route.tags := default [] (Meta.tags meta);
     Route.deprecated := default false (Meta.deprecated meta);
     Route.rateLimit := or_default (Meta.rateLimit meta) JNull;
     Route.authentication :=
       match fl with
       | Api => None
       | Ladybug => Some (default false (Meta.authentication meta))
       end;
     Route.ladybugFeature :=
       match fl with
       | Api => None
       | Ladybug => Some (default false (Meta.ladybugFeature meta))
       end |}.

(** The checks of the [try] block on the exports of a file: they
    throw, or yield the route to register and the registry element to
    push. *)
Definition validate (module : exports) : completion (layer * Route.t) :=
  meta ← some_or_throw (meta module) (msg_meta fl);
  onStart ← some_or_throw (onStart module) (msg_onStart fl);
  _ ← throw_if (negb (str_truthy (Meta.path meta))
                || negb (str_truthy (Meta.name meta))) (msg_required fl);
  let path := default "" (Meta.path meta) in
  let method := toLowerCase (str_or (Meta.method meta) "get") in
  _ ← throw_if (negb (bool_decide (method ∈ validMethods)))
        ("Invalid HTTP method: " +:+ method);
  Normal ({| l_method := method;
             l_path := routePath fl path;
             l_target := ModuleRoute (default "" (Meta.name meta)) onStart |},
          route_of meta path).

(** The body of the [try] block for one file, up to the statements
    that write: [require], the checks, and the call of
    [app[method](routePath, ...)], which throws when Express refuses
    the path.  It throws, or yields the route Express has taken and
    the registry element to push. *)
Definition load_module (content : required) : completion (layer * Route.t) :=
  match content with
  | RequireThrows message => Throw message
  | RequireThrowsNullish => ThrowNullish
  | Returned None => Throw "TypeError: Cannot read properties of undefined"
  | Returned (Some module) => validate module
  | Refused module message => _ ← validate module; Throw message
  end.

(** One [.js] file: the [try] block and its [catch].  The [catch]
    block reads [error.message] first; when the thrown value is [null]
    or [undefined] that read throws a TypeError out of the block, no
    error is recorded and the exception escapes the walk.  Once an
    exception has escaped, no statement of the loader runs any more. *)
Definition load_file (filePath : string) (content : required) (st : loader)
    : loader :=
  match uncaught st with
  | Some _ => st
  | None =>
      match load_module content with
      | Normal (route, info) =>
          {| totalRoutes := S (totalRoutes st);
             apiModules := apiModules st ++ [info];
             loadErrors := loadErrors st;
             registered := registered st ++ [route];
             uncaught := None |}
      | Throw message =>
          {| totalRoutes := totalRoutes st;
             apiModules := apiModules st;
             loadErrors := loadErrors st ++
               [{| LoadError.file := filePath;
                   LoadError.error := message;
                   LoadError.timestamp := clock (length (loadErrors st)) |}];
             registered := registered st;
             uncaught := None |}
      | ThrowNullish =>
          halt "TypeError: Cannot read properties of undefined (reading 'message')"
            st
      end
  end.

(** The callback of [forEach] in [loadModules], for the entry [e] of
    the directory [dir]; a subdirectory is walked by the recursive
    call.  [statSync] and [readdirSync] are called outside the [try]
    block: when one of them throws, the exception escapes the walk. *)
Fixpoint visit (dir : string) (e : entry) (st : loader) : loader :=
  match e with
  | Directory name children =>
      fold_left (fun s child => visit (path_join dir name) child s) children st
  | RegularFile name content =>
      if String.eqb (extname name) ".js"
      then load_file (path_join dir name) content st
      else st
  | Special _ => st
  | Unreadable _ message =>
      match uncaught st with
      | Some _ => st
      | None => halt message st
      end
  end.

(** [loadModules(dir)] for the [api] folder; [listing] is [None] when
    [dir] does not exist, and its entries otherwise.  A [dir] that
    exists and cannot be listed behaves as a listing that holds one
    [Unreadable] entry. *)
Definition loadModules (dir : string) (listing : option (list entry))
    (st : loader) : loader :=
  match listing with
  | None => st
  | Some files => fold_left (fun s e => visit dir e s) files st
  end.

End Loader.

(** The [.js] files of a listing with their paths, in the order a
    walk that nothing stops meets them. *)
Fixpoint scan_entry (dir : string) (e : entry) : list (string * required) :=
  match e with
  | Directory name children =>
      flat_map (scan_entry (path_join dir name)) children
  | RegularFile name content =>
      if String.eqb (extname name) ".js"
      then [(path_join dir name, content)]
      else []
  | Special _ => []
  | Unreadable _ _ => []
  end.

Definition scan (dir : string) (files : list entry) : list (string * required) :=
  flat_map (scan_entry dir) files.

(** Whether the [try] block of a file runs to its end. *)
Definition loads (fl : flavor) (settings : json) (content : required) : bool :=
  match load_module fl settings content with
  | Normal _ => true
  | Throw _ | ThrowNullish => false
  end.

(** ** Route dispatch wrapper *)

Inductive timer := Armed | Fired | Cleared.

(** One request in the hands of the wrapper: whether a response has
    been committed, what the client has received (status code and
    body), the milliseconds since the wrapper started, the state of its
    [setTimeout], and the lines written with [console.error]. *)
Record exchange := {
  headersSent : bool;
  client : option (nat * json);
  elapsed : N;
  timeout : timer;
  console : list string
}.

Definition error_object (message code : string) : gmap string json :=
  <["code" := JStr code]>
    (<["message" := JStr message]> {[ "status" := JStr "error" ]}).

Definition timeout_body (fl : flavor) : json :=
  match fl with
  | Api => JObj (error_object "Request timeout" "TIMEOUT")
  | Ladybug =>
      JObj (<["ladybug" := JStr "🐞 Timeout!"]>
        (error_object "Request timeout - Ladybug took too long to respond"
           "LADYBUG_TIMEOUT"))
  end.

Definition internal_body (fl : flavor) : json :=
  match fl with
  | Api => JObj (error_object "Internal server error" "INTERNAL_ERROR")
  | Ladybug =>
      JObj (<["ladybug" := JStr "🐞 Oops! Bug detected!"]>
        (error_object "Internal Ladybug error" "LADYBUG_ERROR"))
  end.

Definition error_line (fl : flavor) (name message : string) : string :=
  match fl with
  | Api => "❌ Error in " +:+ name +:+ ": " +:+ message
  | Ladybug => "🐞 ❌ Error in " +:+ name +:+ ": " +:+ message
  end.

Section Wrapper.
Variable fl : flavor.
Variable settings : json.
(** [toISOString t] is the text of the date [t] milliseconds after the
    wrapper was entered. *)
Variable toISOString : N → string.

(** [res.status(code).json(data)].  Once a response is committed
    Express refuses a second one (it throws into the caller) and the
    client sees nothing new; when the envelope middleware throws,
    nothing is sent either. *)
Definition status_json (code : nat) (data : json) (x : exchange) : exchange :=
  if headersSent x then x
  else
    match res_json fl settings (toISOString (elapsed x)) data with
    | Normal body =>
        {| headersSent := true;
           client := Some (code, body);
           elapsed := elapsed x;
           timeout := timeout x;
           console := console x |}
    | Throw _ | ThrowNullish => x
    end.

Definition at_time (t : N) (x : exchange) : exchange :=
  {| headersSent := headersSent x;
     client := client x;
     elapsed := t;
     timeout := timeout x;
     console := console x |}.

Definition with_timer (tm : timer) (x : exchange) : exchange :=
  {| headersSent := headersSent x;
     client := client x;
     elapsed := elapsed x;
     timeout := tm;
     console := console x |}.

Definition log_error (line : string) (x : exchange) : exchange :=
  {| headersSent := headersSent x;
     client := client x;
     elapsed := elapsed x;
     timeout := timeout x;
     console := console x ++ [line] |}.

(** The callback given to [setTimeout]. *)
Definition on_timeout (x : exchange) : exchange :=
  with_timer Fired
    (if headersSent x then x else status_json 408 (timeout_body fl) x).

(** The delay given to [setTimeout]. *)
Definition timeout_ms : N := 30000.

(** [d] milliseconds pass while the wrapper waits on the handler: an
    armed timer whose delay has run out fires. *)
Definition pass (d : N) (x : exchange) : exchange :=
  let t := (elapsed x + d)%N in
  match timeout x with
  | Armed =>
      if N.leb timeout_ms t
      then at_time t (on_timeout (at_time (N.max (elapsed x) timeout_ms) x))
      else at_time t x
  | Fired | Cleared => at_time t x
  end.

Definition step (x : exchange) (a : action) : exchange :=
  match a with
  | Sleep ms => pass ms x
  | Respond code data => status_json code data x
  end.

(** The wrapper has called [setTimeout] and is about to call the
    handler. *)
Definition armed : exchange :=
  {| headersSent := false;
     client := None;
     elapsed := 0%N;
     timeout := Armed;
     console := [] |}.

(** What follows [await]: after fulfilment, [clearTimeout]; after a
    rejection, the [catch] block; nothing while the promise is
    pending.  The [catch] block evaluates [error.message] for its
    [console.error] line first: when the handler rejected with [null]
    or [undefined] that read throws out of the block, so nothing is
    logged and nothing is sent, and the timer stays as it is; the
    promise of the wrapper rejects, and what becomes of it is up to
    Express and Node. *)
Definition after_await (name : string) (s : settlement) (x : exchange)
    : exchange :=
  match s with
  | Fulfils =>
      match timeout x with
      | Armed => with_timer Cleared x
      | Fired | Cleared => x
      end
  | Rejects message =>
      let x := log_error (error_line fl name message) x in
      if headersSent x then x else status_json 500 (internal_body fl) x
  | RejectsNullish => x
  | Pending => x
  end.

(** The wrapper registered for a module, run on one request up to the
    end of its body (or up to the [await] that never returns). *)
Definition route_wrapper (name : string) (onStart : handler) (req : request)
    : exchange :=
  let r := onStart req in
  after_await name (settles r) (fold_left step (actions r) armed).

(** The rest of the life of the request: a timer still armed fires
    when its delay has run out. *)
Definition eventually (x : exchange) : exchange :=
  match timeout x with
  | Armed => on_timeout (at_time (N.max (elapsed x) timeout_ms) x)
  | Fired | Cleared => x
  end.

End Wrapper.

(** ** Fallback handlers *)

Inductive response :=
| SendJson (code : nat) (body : json)
| SendFile (code : nat) (file : string).

Definition under_prefix (fl : flavor) (url : string) : bool :=
  String.prefix (api_prefix fl +:+ "/") url.

Definition not_found_body (fl : flavor) : json :=
  match fl with
  | Api =>
      JObj (<["suggestion" := JStr "Visit /api/info for available endpoints"]>
        (error_object "API endpoint not found" "NOT_FOUND"))
  | Ladybug =>
      JObj (<["ladybug" := JStr "🐞 This endpoint seems to have flown away!"]>
        (<["suggestion" := JStr "Visit /ladybug/docs for available endpoints"]>
          (error_object "Ladybug endpoint not found" "LADYBUG_NOT_FOUND")))
  end.

Definition server_error_body (fl : flavor) : json :=
  match fl with
  | Api => JObj (error_object "Internal server error" "INTERNAL_ERROR")
  | Ladybug =>
      JObj (<["ladybug" := JStr "🐞 Oops! A bug in the system!"]>
        (error_object "Internal Ladybug error" "LADYBUG_INTERNAL_ERROR"))
  end.

Definition page_404 (fl : flavor) : string :=
  match fl with
  | Api => "web/404.html"
  | Ladybug => "web/ladybug-404.html"
  end.

Definition page_500 (fl : flavor) : string :=
  match fl with
  | Api => "web/500.html"
  | Ladybug => "web/ladybug-500.html"
  end.

(** The last [app.use((req, res) => ...)]. *)
Definition notFoundHandler (fl : flavor) (settings : json) (now : string)
    (req : request) : completion response :=
  if under_prefix fl (req_url req) then
    body ← res_json fl settings now (not_found_body fl);
    Normal (SendJson 404 body)
  else Normal (SendFile 404 (page_404 fl)).

(** Express's own [res.json]: the body goes out as it is. *)
Definition express_json (data : json) : completion json := Normal data.

(** [app.use((err, req, res, next) => ...)].  [send] is the [res.json]
    of the response at that moment: the one the envelope middleware
    installed when the error was raised after it, and Express's own
    when it was raised before ([next(err)] skips the middleware). *)
Definition errorHandlerWith (send : json → completion json) (fl : flavor)
    (req : request) : completion response :=
  if under_prefix fl (req_url req) then
    body ← send (server_error_body fl);
    Normal (SendJson 500 body)
  else Normal (SendFile 500 (page_500 fl)).

(** The error handler for an error raised after the envelope
    middleware (in a route, say). *)
Definition errorHandler (fl : flavor) (settings : json) (now : string)
    (req : request) : completion response :=
  errorHandlerWith (res_json fl settings now) fl req.

(** ** The application's routes *)

Definition get (path : string) (t : target) : layer :=
  {| l_method := "get"; l_path := path; l_target := t |}.

Definition introspection_routes (fl : flavor) : list layer :=
  match fl with
  | Api =>
      [get "/api/info" (Builtin "info");
       get "/api/health" (Builtin "health");
       get "/api/stats" (Builtin "stats")]
  | Ladybug =>
      [get "/ladybug/docs" (Builtin "docs");
       get "/ladybug/status" (Builtin "status");
       get "/ladybug/health" (Builtin "health");
       get "/ladybug/stats" (Builtin "stats")]
  end.

Definition root_pages (fl : flavor) : list layer :=
  match fl with
  | Api =>
      [get "/" (Page "web/portal.html");
       get "/docs" (Page "web/docs.html");
       get "/playground" (Page "web/playground.html")]
  | Ladybug =>
      [get "/" (Page "web/ladybug-portal.html");
       get "/docs" (Page "web/ladybug-docs.html");
       get "/playground" (Page "web/ladybug-playground.html")]
  end.

(** The routes in the order they are registered. *)
Definition app_routes (fl : flavor) (st : loader) : list layer :=
  get "/settings.json" (Page "settings.json")
    :: registered st ++ introspection_routes fl ++ root_pages fl.

(** Where a request ends in the chain [express.json],
    [express.urlencoded], [cors], the two header and logging
    middlewares (which always pass on), [express.static], the routes,
    the not-found handler. *)
Inductive dispatched :=
| BodyRefused
| Preflight
| Static
| Routed (l : layer)
| Unmatched.

(** The test of the CORS middleware for a preflight request. *)
Definition is_options (req : request) : bool :=
  String.eqb (toUpperCase (req_method req)) "OPTIONS".

Section Dispatch.
(** Express decides whether a registered route accepts a request,
    [express.static] whether the [web] folder has a file for it, and
    the body parsers whether they refuse its body (malformed or too
    large) and pass an error on. *)
Variable accepts : layer → request → bool.
Variable static_serves : request → bool.
Variable body_refused : request → bool.

(** Who answers a request: the error handler after a body parser has
    refused the body; the CORS middleware, which ends every OPTIONS
    request itself; the static middleware; the first route that
    accepts the request; or, when none does, the not-found handler. *)
Definition dispatch (fl : flavor) (st : loader) (req : request) : dispatched :=
  if body_refused req then BodyRefused
  else if is_options req then Preflight
  else if static_serves req then Static
  else
    match find (fun l => accepts l req) (app_routes fl st) with
    | Some l => Routed l
    | None => Unmatched
    end.

End Dispatch.

(** ** Introspection endpoints of the /api deployment *)

Module Group.
(** A value of the [categories] object built by [/api/info]. *)
Record t := { name : string; count : nat; items : list json }.
End Group.

Definition item_json (module : Route.t) : json :=
  JObj (list_to_map
    [("name", JStr (Route.name module));
     ("desc", JStr (Route.description module));
     ("path", JStr (Route.path module));
     ("author", Route.author module);
     ("method", JStr (Route.method module));
     ("version", JStr (Route.version module));
     ("tags", JArr (JStr <$> Route.tags module));
     ("deprecated", JBool (Route.deprecated module));
     ("rateLimit", Route.rateLimit module)]).

Definition group_json (g : Group.t) : json :=
  JObj (list_to_map
    [("name", JStr (Group.name g));
     ("count", JNat (Group.count g));
     ("items", JArr (Group.items g))]).

(** [categories[k] = f(categories[k])] on the [categories] object, kept
    as the list of its own properties in creation order (the order of
    [Object.values] for names that are no array indices). *)
Definition update (k : string) (f : Group.t → Group.t)
    (categories : list (string * Group.t)) : list (string * Group.t) :=
  map (fun kv => if String.eqb kv.1 k then (kv.1, f kv.2) else kv) categories.

(** The names every object inherits from [Object.prototype]; all of
    them are bound to truthy values (functions, and the prototype
    itself for [__proto__]) that have no [items] property. *)
Definition object_prototype : list string :=
  ["constructor"; "__defineGetter__"; "__defineSetter__"; "hasOwnProperty";
   "__lookupGetter__"; "__lookupSetter__"; "isPrototypeOf";
   "propertyIsEnumerable"; "toString"; "valueOf"; "__proto__";
   "toLocaleString"].

(** The callback of [apiModules.forEach] in [/api/info].
    [categories] starts as [{}]: [categories[c]] is the stored group
    when [c] is an own key (an object, hence truthy), the inherited
    value when [c] is a name of [Object.prototype] (truthy as well),
    and [undefined] otherwise.  So for an inherited name no group is
    created, [categories[c].items] is [undefined] and [.push] throws. *)
Definition info_step (acc : list (string * Group.t) * nat) (module : Route.t)
    : completion (list (string * Group.t) * nat) :=
  let '(categories, totalEndpoints) := acc in
  let c := Route.category module in
  let categories :=
    if bool_decide (c ∈ categories.*1) || bool_decide (c ∈ object_prototype)
    then categories
    else categories ++ [(c, {| Group.name := c; Group.count := 0; Group.items := [] |})] in
  if bool_decide (c ∈ categories.*1) then
    let categories :=
      update c (fun g => {| Group.name := Group.name g;
                            Group.count := Group.count g;
                            Group.items := Group.items g ++ [item_json module] |})
        categories in
    let categories :=
      update c (fun g => {| Group.name := Group.name g;
                            Group.count := S (Group.count g);
                            Group.items := Group.items g |})
        categories in
    Normal (categories, S totalEndpoints)
  else Throw "TypeError: Cannot read properties of undefined (reading 'push')".

(** The whole loop. *)
Definition info_loop (modules : list Route.t)
    : completion (list (string * Group.t) * nat) :=
  fold_left (fun acc module => a ← acc; info_step a module) modules
    (Normal ([], 0)).

(** [acc[method] = (acc[method] || 0) + 1] over [apiModules]. *)
Definition methods_count (modules : list Route.t) : gmap string nat :=
  fold_left
    (fun acc module =>
       <[Route.method module := default 0 (acc !! Route.method module) + 1]> acc)
    modules ∅.

(** [[...new Set(xs)].length]. *)
Definition set_size (xs : list string) : nat :=
  size (list_to_set xs : gset string).

Section Introspection.
Variable settings : json.
(** [process.uptime()], [process.memoryUsage()], [process.version]
    and [new Date().toISOString()] at the request. *)
Variables uptime memory nodeVersion : json.
Variable now : string.

Definition info_data (st : loader) : completion json :=
  '(categories, totalEndpoints) ← info_loop (apiModules st);
  Normal (JObj (list_to_map
    [("categories", JArr (group_json <$> categories.*2));
     ("summary", JObj (list_to_map
        [("totalEndpoints", JNat totalEndpoints);
         ("totalCategories", JNat (length categories.*1));
         ("loadErrors", JNat (length (loadErrors st)));
         ("serverUptime", uptime)]))])).

Definition stats_data (st : loader) : json :=
  JObj (list_to_map
    [("totalRoutes", JNat (totalRoutes st));
     ("loadErrors", JNat (length (loadErrors st)));
     ("categories", JNat (set_size (Route.category <$> apiModules st)));
     ("methods", JObj (JNat <$> methods_count (apiModules st)));
     ("uptime", uptime);
     ("nodeVersion", nodeVersion)]).

Definition health_data : completion json :=
  version ← member (Some settings) "version";
  Normal (JObj (list_to_map
    [("status", JStr "healthy");
     ("uptime", uptime);
     ("memory", memory);
     ("timestamp", JStr now);
     ("version", or_default version (JStr "1.0.0"))])).

(** [res.json(data)] on a response whose status is still 200. *)
Definition send_json (data : json) : completion response :=
  body ← res_json Api settings now data;
  Normal (SendJson 200 body).

(** The three handlers; each takes the loader's variables and hands
    them back with its response. *)
Definition info (st : loader) : completion response * loader :=
  (data ← info_data st; send_json data, st).

Definition health (st : loader) : completion response * loader :=
  (data ← health_data; send_json data, st).

Definition stats (st : loader) : completion response * loader :=
  (send_json (stats_data st), st).

End Introspection.

(** ** Counting what a scan should produce *)

(** The registry elements of the files of a scan that load. *)
Definition loaded_routes (fl : flavor) (settings : json)
    (scanned : list (string * required)) : list Route.t :=
  omap (fun f => match load_module fl settings f.2 with
                 | Normal (_, info) => Some info
                 | Throw _ | ThrowNullish => None
                 end) scanned.

Definition loaded_layers (fl : flavor) (settings : json)
    (scanned : list (string * required)) : list layer :=
  omap (fun f => match load_module fl settings f.2 with
                 | Normal (route, _) => Some route
                 | Throw _ | ThrowNullish => None
                 end) scanned.

(** The files of a scan that fail to load. *)
Definition failing (fl : flavor) (settings : json)
    (scanned : list (string * required)) : list (string * required) :=
  filter (fun f => loads fl settings f.2 = false) scanned.

(** The number of different strings in a list. *)
Definition distinct (xs : list string) : nat := length (remove_dups xs).

(** The name of the envelope field that carries the operator. *)
Definition operator_key (fl : flavor) : string :=
  match fl with
  | Api => "operator"
  | Ladybug => "developer"
  end.

(** The message the [try] block of a file throws, if it throws. *)
Definition thrown (fl : flavor) (settings : json) (content : required) : string :=
  match load_module fl settings content with
  | Throw message => message
  | Normal _ | ThrowNullish => ""
  end.

(** The errors a scan should leave in [loadErrors]: one for each
    failing file, in the order of the walk. *)
Definition expected_errors (fl : flavor) (settings : json) (clock : nat → string)
    (scanned : list (string * required)) : list LoadError.t :=
  imap (fun k f => {| LoadError.file := f.1;
                      LoadError.error := thrown fl settings f.2;
                      LoadError.timestamp := clock k |})
    (failing fl settings scanned).

(** [load_file] on a scanned file. *)
Definition load_scanned (fl : flavor) (settings : json) (clock : nat → string)
    (st : loader) (f : string * required) : loader :=
  load_file fl settings clock f.1 f.2 st.

(** A module that lacks a name or a path, or declares an unknown
    method. *)
Definition invalid (m : Meta.t) : Prop :=
  str_truthy (Meta.name m) = false
  ∨ str_truthy (Meta.path m) = false
  ∨ toLowerCase (str_or (Meta.method m) "get") ∉ validMethods.

(** The answer to a request: by the error handler, for a refused
    body; the empty 204 response of the CORS middleware; by the static
    middleware; by a route; or, when nothing matched, by the not-found
    handler. *)
Inductive answer :=
| Failure (r : completion response)
| NoContent
| FromStatic
| FromRoute (l : layer)
| Fallback (r : completion response).

Definition serve (accepts : layer → request → bool)
    (static_serves body_refused : request → bool) (fl : flavor)
    (settings : json) (now : string) (st : loader) (req : request) : answer :=
  match dispatch accepts static_serves body_refused fl st req with
  | BodyRefused => Failure (errorHandlerWith express_json fl req)
  | Preflight => NoContent
  | Static => FromStatic
  | Routed l => FromRoute l
  | Unmatched => Fallback (notFoundHandler fl settings now req)
  end.

(** The codes and texts the specification names. *)
Definition timeout_code (fl : flavor) : string :=
  match fl with
  | Api => "TIMEOUT"
  | Ladybug => "LADYBUG_TIMEOUT"
  end.

Definition internal_code (fl : flavor) : string :=
  match fl with
  | Api => "INTERNAL_ERROR"
  | Ladybug => "LADYBUG_ERROR"
  end.

Definition internal_message (fl : flavor) : string :=
  match fl with
  | Api => "Internal server error"
  | Ladybug => "Internal Ladybug error"
  end.

Definition not_found_code (fl : flavor) : string :=
  match fl with
  | Api => "NOT_FOUND"
  | Ladybug => "LADYBUG_NOT_FOUND"
  end.

(** The path of the listing endpoint. *)
Definition listing_path (fl : flavor) : string :=
  match fl with
  | Api => "/api/info"
  | Ladybug => "/ladybug/docs"
  end.

(** Two exchanges that differ at most in what was written to the
    console: the client cannot tell them apart. *)
Definition same_for_client (x y : exchange) : Prop :=
  headersSent x = headersSent y
  ∧ client x = client y
  ∧ elapsed x = elapsed y
  ∧ timeout x = timeout y.

(** ** Helpers for the statements about the rest of the host *)

(** [segs.join(c)] for a one-character separator. *)
Fixpoint join (c : ascii) (segs : list string) : string :=
  match segs with
  | [] => ""
  | [seg] => seg
  | seg :: rest => seg +:+ String c (join c rest)
  end.

(** The number of occurrences of a character in a string. *)
Fixpoint count_char (c : ascii) (s : string) : nat :=
  match s with
  | EmptyString => 0
  | String a rest => (if Ascii.eqb a c then 1 else 0) + count_char c rest
  end.

(** The [origin] option given to [cors]:
    [ALLOWED_ORIGINS ? ALLOWED_ORIGINS.split(',') : '*']; the argument
    is the environment variable, [None] when it is not set. *)
Inductive origin :=
| AnyOrigin
| Origins (allowed : list string).

Definition cors_origin (ALLOWED_ORIGINS : option string) : origin :=
  if str_truthy ALLOWED_ORIGINS
  then Origins (split "," (default "" ALLOWED_ORIGINS))
  else AnyOrigin.

(** The time a handler lets pass, and whether it never responds. *)
Fixpoint total_sleep (acts : list action) : N :=
  match acts with
  | [] => 0
  | Sleep ms :: rest => ms + total_sleep rest
  | Respond _ _ :: rest => total_sleep rest
  end.

Definition silent (acts : list action) : bool :=
  forallb (fun a => match a with
                    | Sleep _ => true
                    | Respond _ _ => false
                    end) acts.

(** The bodies the envelope middleware wraps. *)
Definition object_body (data : json) : bool :=
  truthy (Some data) && typeof_object data.

(** Whether every response of a handler carries such a body. *)
Definition responds_objects (acts : list action) : bool :=
  forallb (fun a => match a with
                    | Sleep _ => true
                    | Respond _ data => object_body data
                    end) acts.

(** The names of the envelope fields. *)
Definition envelope_keys (fl : flavor) : gset string :=
  match fl with
  | Api => {[ "status"; "operator"; "timestamp"; "version" ]}
  | Ladybug =>
      {[ "status"; "developer"; "framework"; "version"; "timestamp"; "ladybug" ]}
  end.

(** The code of the top-level error handler. *)
Definition server_error_code (fl : flavor) : string :=
  match fl with
  | Api => "INTERNAL_ERROR"
  | Ladybug => "LADYBUG_INTERNAL_ERROR"
  end.

(** The modules of a category, and those of a declared method. *)
Definition of_category (c : string) (modules : list Route.t) : list Route.t :=
  filter (fun m => Route.category m = c) modules.

Definition of_method (m : string) (modules : list Route.t) : list Route.t :=
  filter (fun r => Route.method r = m) modules.

(** A module that passes every check of the loader. *)
Definition well_formed (module : exports) : Prop :=
  ∃ m h,
    meta module = Some m ∧ onStart module = Some h
    ∧ str_truthy (Meta.path m) = true
    ∧ str_truthy (Meta.name m) = true
    ∧ toLowerCase (str_or (Meta.method m) "get") ∈ validMethods.


(** A name the loader takes for a route file. *)
Definition js_name (name : string) : Prop :=
  ∃ stem, stem ≠ "" ∧ name = stem +:+ ".js".

(** Nothing has been sent to the client. *)
Definition unsent (x : exchange) : Prop :=
  headersSent x = false ∧ client x = None.

(** The group [/api/info] should show for a category: its name, the
    items of its modules in registry order, and their number. *)
Definition group_of (c : string) (modules : list Route.t) : Group.t :=
  {| Group.name := c;
     Group.count := length (of_category c modules);
     Group.items := item_json <$> of_category c modules |}.

(** ** What the statements about scans and listings speak of *)

(** Whether an entry stops the walk: it cannot be read, or it is a
    [.js] file whose top level throws [null] or [undefined], or it is a
    directory that holds such an entry. *)
Fixpoint stops (e : entry) : bool :=
  match e with
  | Directory _ children => existsb stops children
  | RegularFile name content =>
      String.eqb (extname name) ".js"
      && match content with
         | RequireThrowsNullish => true
         | _ => false
         end
  | Special _ => false
  | Unreadable _ _ => true
  end.

(** The category under which a module is listed: the one its [meta]
    declares, or the default of the deployment. *)
Definition shown_category (fl : flavor) (m : Meta.t) : string :=
  str_or (Meta.category m)
    match fl with
    | Api => "Uncategorized"
    | Ladybug => "General"
    end.

(** The categories of the files of a scan that load, in scan order. *)
Definition scan_categories (fl : flavor) (settings : json)
    (scanned : list (string * required)) : list string :=
  omap (fun f =>
          match f.2 with
          | Returned (Some module) =>
              match meta module with
              | Some m =>
                  if loads fl settings f.2 then Some (shown_category fl m)
                  else None
              | None => None
              end
          | _ => None
          end) scanned.

(** An item of a group of [/api/info] shows a registry element: it
    has the nine fields of the element and no other. *)
Definition shows (item : json) (m : Route.t) : Prop :=
  ∃ fields,
    item = JObj fields
    ∧ dom fields = {[ "name"; "desc"; "path"; "author"; "method"; "version";
                      "tags"; "deprecated"; "rateLimit" ]}
    ∧ fields !! "name" = Some (JStr (Route.name m))
    ∧ fields !! "desc" = Some (JStr (Route.description m))
    ∧ fields !! "path" = Some (JStr (Route.path m))
    ∧ fields !! "author" = Some (Route.author m)
    ∧ fields !! "method" = Some (JStr (Route.method m))
    ∧ fields !! "version" = Some (JStr (Route.version m))
    ∧ fields !! "tags" = Some (JArr (JStr <$> Route.tags m))
    ∧ fields !! "deprecated" = Some (JBool (Route.deprecated m))
    ∧ fields !! "rateLimit" = Some (Route.rateLimit m).

(** A group of [/api/info] lists a category of a registry: its name,
    the number of the modules of that category, and their items in
    registry order. *)
Definition lists (modules : list Route.t) (group : json) (c : string) : Prop :=
  ∃ fields items,
    group = JObj fields
    ∧ dom fields = {[ "name"; "count"; "items" ]}
    ∧ fields !! "name" = Some (JStr c)
    ∧ fields !! "count" = Some (JNat (length (of_category c modules)))
    ∧ fields !! "items" = Some (JArr items)
    ∧ Forall2 shows items (of_category c modules).

(** * Properties *)

(** ** The envelope *)

Lemma member_not_null (v : json) (k : string) :
  is_null v = false → member (Some v) k = Normal (prop (Some v) k).
Proof. destruct v; simpl; intros H; try reflexivity. discriminate H. Qed.

Lemma member_null (k : string) :
  member (Some JNull) k = Throw "TypeError: Cannot read properties of null".
Proof. reflexivity. Qed.

Lemma or_default_falsy (v : option json) (d : json) :
  truthy v = false → or_default v d = d.
Proof.
  intros H. unfold or_default, js_or. rewrite H.
  destruct (truthy (Some d)); reflexivity.
Qed.

Lemma or_default_undefined (d : json) : or_default None d = d.
Proof. apply or_default_falsy. reflexivity. Qed.

(** [settings.apiSettings && settings.apiSettings.operator] never
    throws, and under [|| d] it is worth the [operator] property. *)
Lemma operator_read (apiSettings : option json) (d : json) :
  ∃ operator,
    (if truthy apiSettings then member apiSettings "operator"
     else Normal apiSettings) = Normal operator
    ∧ or_default operator d = or_default (prop apiSettings "operator") d.
Proof.
  destruct (truthy apiSettings) eqn:Ht.
  - destruct apiSettings as [[| b | q | s | items | fields]|];
      simpl in *; try discriminate Ht; eexists; split; reflexivity.
  - exists apiSettings. split; [reflexivity|].
    rewrite (or_default_falsy apiSettings) by exact Ht.
    destruct apiSettings as [[| b | q | s | items | fields]|];
      simpl in *; try discriminate Ht; symmetry; apply or_default_undefined.
Qed.

(** Outside [status], the literal does not depend on the status it
    was given. *)
Lemma envelope_literal_other (fl : flavor) (s s' o v : json) (now k : string) :
  k ≠ "status" →
  envelope_literal fl s o v now !! k = envelope_literal fl s' o v now !! k.
Proof.
  intros Hk. destruct fl; unfold envelope_literal;
    rewrite !lookup_insert; repeat case_decide; congruence.
Qed.

Lemma envelope_literal_status (fl : flavor) (s o v : json) (now : string) :
  envelope_literal fl s o v now !! "status" = Some s.
Proof. destruct fl; reflexivity. Qed.

(** The [status] entry computed from [data.status] is overwritten by
    the spread whenever it differs from the default. *)
Lemma spread_status (fl : flavor) (fields : gmap string json)
    (o v : json) (now : string) :
  fields ∪ envelope_literal fl
             (or_default (fields !! "status") (JStr "success")) o v now
  = fields ∪ envelope_literal fl (JStr "success") o v now.
Proof.
  apply map_eq. intros k.
  destruct (fields !! k) as [x|] eqn:Hk.
  - rewrite !(lookup_union_Some_l _ _ _ x) by exact Hk. reflexivity.
  - rewrite !lookup_union_r by exact Hk.
    destruct (decide (k = "status")) as [->|Hne].
    + rewrite Hk, or_default_undefined. reflexivity.
    + apply envelope_literal_other, Hne.
Qed.

(** What [res.json] hands on for an object body, and that it throws
    for every object body when the settings are [null]. *)
Lemma res_json_object (fl : flavor) (settings : json) (now : string)
    (fields : gmap string json) :
  is_null settings = false →
  res_json fl settings now (JObj fields)
  = Normal (JObj (fields ∪ envelope_defaults fl settings now)).
Proof.
  intros Hs. unfold res_json. cbn [truthy typeof_object andb].
  change (member (Some (JObj fields)) "status")
    with (@Normal (option json) (fields !! "status")).
  cbn [mbind completion_bind].
  rewrite !(member_not_null settings) by exact Hs.
  cbn [mbind completion_bind].
  destruct (operator_read (prop (Some settings) "apiSettings")
              (default_operator fl)) as (op & -> & Hop).
  cbn [mbind completion_bind].
  unfold spread, envelope_defaults. cbn [own_props].
  rewrite Hop, spread_status. reflexivity.
Qed.

(** An array body is an object for [typeof]: it is spread like one. *)
Lemma res_json_array (fl : flavor) (settings : json) (now : string)
    (items : list json) :
  is_null settings = false →
  res_json fl settings now (JArr items)
  = Normal (JObj (own_props (JArr items) ∪ envelope_defaults fl settings now)).
Proof.
  intros Hs. unfold res_json. cbn [truthy typeof_object andb].
  change (member (Some (JArr items)) "status") with (@Normal (option json) None).
  cbn [mbind completion_bind].
  rewrite !(member_not_null settings) by exact Hs.
  cbn [mbind completion_bind].
  destruct (operator_read (prop (Some settings) "apiSettings")
              (default_operator fl)) as (op & -> & Hop).
  cbn [mbind completion_bind].
  unfold spread, envelope_defaults.
  rewrite Hop, or_default_undefined. reflexivity.
Qed.

Lemma res_json_null_settings (fl : flavor) (now : string)
    (fields : gmap string json) :
  res_json fl JNull now (JObj fields)
  = Throw "TypeError: Cannot read properties of null".
Proof. reflexivity. Qed.

(** Which settings can be [null] when requests are served. *)
Lemma load_settings_null (fl : flavor) (f : settings_file) :
  is_null (load_settings fl f) = true ↔ fl = Api ∧ f = Parsed JNull.
Proof.
  split.
  - destruct f as [| |v]; destruct fl; simpl; try discriminate.
    + destruct v; simpl; try discriminate. auto.
    + destruct (is_null v) eqn:Hv; [discriminate|]. congruence.
  - intros [-> ->]. reflexivity.
Qed.

(** A body whose type is not ['object'], and [null], pass through. *)
Lemma res_json_passthrough (fl : flavor) (settings : json) (now : string)
    (data : json) :
  truthy (Some data) && typeof_object data = false →
  res_json fl settings now data = Normal data.
Proof. intros H. unfold res_json. rewrite H. reflexivity. Qed.

Lemma res_json_primitive (fl : flavor) (settings : json) (now : string) :
  res_json fl settings now JNull = Normal JNull
  ∧ (∀ b, res_json fl settings now (JBool b) = Normal (JBool b))
  ∧ (∀ q, res_json fl settings now (JNum q) = Normal (JNum q))
  ∧ (∀ s, res_json fl settings now (JStr s) = Normal (JStr s)).
Proof.
  repeat split; intros; apply res_json_passthrough; simpl;
    try reflexivity; apply andb_false_r.
Qed.

(** A property of the handler's object is in the client's body. *)
Lemma res_json_keeps (fl : flavor) (settings : json) (now : string)
    (fields : gmap string json) :
  is_null settings = false →
  ∃ body,
    res_json fl settings now (JObj fields) = Normal (JObj body)
    ∧ ∀ k v, fields !! k = Some v → body !! k = Some v.
Proof.
  intros Hs. eexists. split; [apply res_json_object, Hs|].
  intros k v Hk. apply lookup_union_Some_l, Hk.
Qed.

(** The envelope merge.  When the settings are any value but
    [null], for a handler body that is a key-value object the body
    handed to the client is the handler's fields merged over the
    envelope defaults (status "success", operator or developer,
    version, timestamp): a handler field always reaches the client
    unchanged, a default shows only where the handler has no field of
    that name; a handler status "error" therefore replaces the default
    "success". *)
Lemma envelope_handler_fields_win (fl : flavor) (settings : json)
    (now : string) (fields : gmap string json) :
  is_null settings = false →
  ∃ body,
    res_json fl settings now (JObj fields) = Normal (JObj body)
    ∧ body = fields ∪ envelope_defaults fl settings now
    ∧ (∀ k v, fields !! k = Some v → body !! k = Some v)
    ∧ (∀ k, fields !! k = None →
         body !! k = envelope_defaults fl settings now !! k)
    ∧ envelope_defaults fl settings now !! "status" = Some (JStr "success")
    ∧ envelope_defaults fl settings now !! "timestamp" = Some (JStr now)
    ∧ is_Some (envelope_defaults fl settings now !! operator_key fl)
    ∧ is_Some (envelope_defaults fl settings now !! "version")
    ∧ (fields !! "status" = Some (JStr "error") →
         body !! "status" = Some (JStr "error")).
Proof.
  intros Hs. exists (fields ∪ envelope_defaults fl settings now).
  split; [apply res_json_object, Hs|].
  split; [reflexivity|].
  split; [intros k v Hk; apply lookup_union_Some_l, Hk|].
  split; [intros k Hk; apply lookup_union_r, Hk|].
  split; [apply envelope_literal_status|].
  split; [destruct fl; reflexivity|].
  split; [destruct fl; eexists; reflexivity|].
  split; [destruct fl; eexists; reflexivity|].
  intros Hk. apply lookup_union_Some_l, Hk.
Qed.

Lemma envelope_handler_fields_win_example :
  ∃ body,
    res_json Api (fallback_settings Api) "2026-01-01T00:00:00.000Z"
      (JObj (<["foo" := JNum 1]> {[ "status" := JStr "error" ]}))
    = Normal (JObj body)
    ∧ body !! "status" = Some (JStr "error")
    ∧ body !! "foo" = Some (JNum 1).
Proof.
  destruct (envelope_handler_fields_win Api (fallback_settings Api)
              "2026-01-01T00:00:00.000Z"
              (<["foo" := JNum 1]> {[ "status" := JStr "error" ]}))
    as (body & Hres & _ & Hkeep & _ & _ & _ & _ & _ & Herr).
  - reflexivity.
  - exists body. split; [exact Hres|]. split.
    + apply Herr. reflexivity.
    + apply Hkeep. reflexivity.
Qed.

(** C1. With a settings.json that holds [null], no object body reaches
    the client in the /api deployment.  [JSON.parse] returns [null]
    without throwing, so the [try] block keeps it; in [res.json] the
    guard [settings.apiSettings && ...] then reads a property of
    [null] and throws.  The handler's [{status: "error", foo: 1}] is
    not merged and not sent, and neither is any later response of the
    wrapper or of its timer.  The ladybug deployment, given the same
    file, merges the body: its [try] block also reads [settings.name],
    which throws for [null] and brings the hardcoded settings in, as
    an unparsable file does in both deployments. *)
Theorem null_settings_break_the_envelope :
  let now := "2026-01-01T00:00:00.000Z" in
  let iso := fun t : N => pretty t in
  let fields : gmap string json :=
    <["foo" := JNum 1]> {[ "status" := JStr "error" ]} in
  let h : handler := fun _ =>
    {| actions := [Respond 200 (JObj fields)];
       settles := Rejects "Cannot read properties of null (reading 'apiSettings')" |} in
  let req := {| req_method := "GET"; req_url := "/api/example/hello" |} in
  let settings := load_settings Api (Parsed JNull) in
  settings = JNull
  ∧ res_json Api settings now (JObj fields)
    = Throw "TypeError: Cannot read properties of null"
  ∧ client (route_wrapper Api settings iso "Hello API" h req) = None
  ∧ client (eventually Api settings iso
              (route_wrapper Api settings iso "Hello API" h req)) = None
  ∧ (∃ body,
       res_json Ladybug (load_settings Ladybug (Parsed JNull)) now (JObj fields)
       = Normal (JObj body)
       ∧ body !! "status" = Some (JStr "error")
       ∧ body !! "foo" = Some (JNum 1)
       ∧ body !! "developer" = Some (JStr "AjiroDesu"))
  ∧ (∃ body,
       res_json Api (load_settings Api Unparsable) now (JObj fields)
       = Normal (JObj body)
       ∧ body !! "status" = Some (JStr "error")
       ∧ body !! "foo" = Some (JNum 1)
       ∧ body !! "operator" = Some (JStr "Ladybug APIs")).
Proof.
  cbn zeta. repeat split; try reflexivity;
    (eexists; split; [reflexivity|]; repeat split; reflexivity).
Qed.

(** C2. An array body does not pass through: [typeof] of an array is
    ['object'], so the middleware spreads the array into a new object,
    its elements under the keys "0", "1", ..., next to the envelope
    fields.  The client of [res.json([1, 2])] receives an object. *)
Theorem res_json_array_is_enveloped :
  ∃ body,
    res_json Api (fallback_settings Api) "2026-01-01T00:00:00.000Z"
      (JArr [JNum 1; JNum 2]) = Normal (JObj body)
    ∧ body !! "0" = Some (JNum 1)
    ∧ body !! "1" = Some (JNum 2)
    ∧ body !! "status" = Some (JStr "success")
    ∧ body !! "operator" = Some (JStr "Ladybug APIs")
    ∧ body !! "timestamp" = Some (JStr "2026-01-01T00:00:00.000Z")
    ∧ res_json Api (fallback_settings Api) "2026-01-01T00:00:00.000Z"
        (JArr [JNum 1; JNum 2]) ≠ Normal (JArr [JNum 1; JNum 2]).
Proof.
  eexists. split; [reflexivity|].
  repeat split; try reflexivity. discriminate.
Qed.

(** ** The loader *)

Lemma entry_forall_ind (P : entry → Prop) :
  (∀ name children, Forall P children → P (Directory name children)) →
  (∀ name content, P (RegularFile name content)) →
  (∀ name, P (Special name)) →
  (∀ name message, P (Unreadable name message)) →
  ∀ e, P e.
Proof.
  intros Hdir Hfile Hspecial Hunreadable. fix IH 1.
  intros [name children | name content | name | name message].
  - apply Hdir. induction children as [|c cs IHcs]; constructor.
    + apply IH.
    + exact IHcs.
  - apply Hfile.
  - apply Hspecial.
  - apply Hunreadable.
Qed.

Section LoaderFacts.
Variable fl : flavor.
Variable settings : json.
Variable clock : nat → string.

(** The checks never throw [null] or [undefined]: only [require]
    can. *)
Lemma validate_not_nullish (module : exports) :
  validate fl settings module ≠ ThrowNullish.
Proof.
  unfold validate. destruct (meta module) as [m|]; [|discriminate].
  destruct (onStart module) as [h|]; [|discriminate].
  cbn [some_or_throw mbind completion_bind].
  destruct (negb (str_truthy (Meta.path m)) || negb (str_truthy (Meta.name m)));
    [discriminate|].
  cbn [throw_if mbind completion_bind].
  destruct (negb (bool_decide (toLowerCase (str_or (Meta.method m) "get")
                                 ∈ validMethods))); discriminate.
Qed.

Lemma load_module_nullish (content : required) :
  load_module fl settings content = ThrowNullish ↔ content = RequireThrowsNullish.
Proof.
  split; [|intros ->; reflexivity].
  destruct content as [message | | [module|] | module message];
    cbn [load_module]; try discriminate; try reflexivity.
  - intros H. destruct (validate_not_nullish module H).
  - destruct (validate fl settings module) eqn:Hv; try discriminate.
    destruct (validate_not_nullish module Hv).
Qed.

(** The ways a file can go. *)
Lemma load_file_halted (filePath : string) (content : required) (st : loader)
    (message : string) :
  uncaught st = Some message →
  load_file fl settings clock filePath content st = st.
Proof. intros H. unfold load_file. rewrite H. reflexivity. Qed.

Lemma load_file_loads (filePath : string) (content : required) (st : loader)
    (route : layer) (info : Route.t) :
  uncaught st = None →
  load_module fl settings content = Normal (route, info) →
  load_file fl settings clock filePath content st
  = {| totalRoutes := S (totalRoutes st);
       apiModules := apiModules st ++ [info];
       loadErrors := loadErrors st;
       registered := registered st ++ [route];
       uncaught := None |}.
Proof. intros Hu H. unfold load_file. rewrite Hu, H. reflexivity. Qed.

Lemma load_file_throws (filePath : string) (content : required) (st : loader)
    (message : string) :
  uncaught st = None →
  load_module fl settings content = Throw message →
  load_file fl settings clock filePath content st
  = {| totalRoutes := totalRoutes st;
       apiModules := apiModules st;
       loadErrors := loadErrors st ++
         [{| LoadError.file := filePath;
             LoadError.error := message;
             LoadError.timestamp := clock (length (loadErrors st)) |}];
       registered := registered st;
       uncaught := None |}.
Proof. intros Hu H. unfold load_file. rewrite Hu, H. reflexivity. Qed.

Lemma load_file_nullish (filePath : string) (st : loader) :
  uncaught st = None →
  load_file fl settings clock filePath RequireThrowsNullish st
  = halt "TypeError: Cannot read properties of undefined (reading 'message')" st.
Proof. intros Hu. unfold load_file. rewrite Hu. reflexivity. Qed.

(** Once an exception has escaped, the walk does nothing more. *)
Lemma visit_halted (e : entry) :
  ∀ dir st message,
    uncaught st = Some message → visit fl settings clock dir e st = st.
Proof.
  induction e as [name children IH | name content | name | name msg]
    using entry_forall_ind; intros dir st message Hu; cbn [visit].
  - revert st Hu. induction IH as [|c cs Hc _ IHcs]; intros st Hu; cbn [fold_left].
    + reflexivity.
    + rewrite (Hc _ _ _ Hu). apply IHcs, Hu.
  - destruct (String.eqb (extname name) ".js"); [|reflexivity].
    apply (load_file_halted _ _ _ _ Hu).
  - reflexivity.
  - rewrite Hu. reflexivity.
Qed.

Lemma visit_started (e : entry) (dir : string) (st : loader) :
  uncaught (visit fl settings clock dir e st) = None → uncaught st = None.
Proof.
  destruct (uncaught st) as [message|] eqn:Hu; [|reflexivity].
  rewrite (visit_halted e dir st message Hu), Hu. discriminate.
Qed.

Lemma walk_started (dir : string) (es : list entry) :
  ∀ st,
    uncaught (fold_left (fun s e => visit fl settings clock dir e s) es st) = None →
    uncaught st = None.
Proof.
  induction es as [|e es IH]; intros st; cbn [fold_left]; [auto|].
  intros H. apply (visit_started e dir), IH, H.
Qed.

Lemma load_scanned_started (fs : list (string * required)) :
  ∀ st,
    uncaught (fold_left (load_scanned fl settings clock) fs st) = None →
    uncaught st = None.
Proof.
  induction fs as [|f fs IH]; intros st; cbn [fold_left]; [auto|].
  intros H. apply IH in H. unfold load_scanned in H.
  destruct (uncaught st) as [message|] eqn:Hu; [|reflexivity].
  rewrite (load_file_halted _ _ _ _ Hu), Hu in H. discriminate H.
Qed.

(** What every file of the walk preserves, and an escaping exception
    too, the walk preserves. *)
Lemma visit_preserves (I : loader → Prop) (e : entry) :
  ∀ dir st,
    (∀ p c s, (p, c) ∈ scan_entry dir e → I s →
              I (load_file fl settings clock p c s)) →
    (∀ message s, I s → I (halt message s)) →
    I st → I (visit fl settings clock dir e st).
Proof.
  induction e as [name children IH | name content | name | name msg]
    using entry_forall_ind; intros dir st Hfile Hhalt Hst; cbn [visit].
  - cbn [scan_entry] in Hfile. revert st Hst.
    induction IH as [|c cs Hc _ IHcs]; intros st Hst; cbn [fold_left]; [exact Hst|].
    apply IHcs.
    + intros p ct s Hin. apply Hfile. cbn [flat_map].
      apply elem_of_app. right. exact Hin.
    + apply Hc; [|exact Hhalt|exact Hst].
      intros p ct s Hin. apply Hfile. cbn [flat_map].
      apply elem_of_app. left. exact Hin.
  - cbn [scan_entry] in Hfile.
    destruct (String.eqb (extname name) ".js"); [|exact Hst].
    apply Hfile; [|exact Hst]. apply list_elem_of_singleton. reflexivity.
  - exact Hst.
  - destruct (uncaught st); [exact Hst|]. apply Hhalt, Hst.
Qed.

Lemma loadModules_preserves (I : loader → Prop) (dir : string)
    (listing : option (list entry)) (st : loader) :
  (∀ p c s, (p, c) ∈ scan dir (default [] listing) → I s →
            I (load_file fl settings clock p c s)) →
  (∀ message s, I s → I (halt message s)) →
  I st → I (loadModules fl settings clock dir listing st).
Proof.
  destruct listing as [files|]; cbn [loadModules default]; [|auto].
  intros Hfile Hhalt. revert st. unfold scan in Hfile.
  induction files as [|e es IH]; intros st Hst; cbn [fold_left]; [exact Hst|].
  apply IH.
  - intros p c s Hin. apply Hfile. cbn [flat_map].
    apply elem_of_app. right. exact Hin.
  - apply visit_preserves; [|exact Hhalt|exact Hst].
    intros p c s Hin. apply Hfile. cbn [flat_map].
    apply elem_of_app. left. exact Hin.
Qed.

(** A walk that nothing stops is the loading of its scanned files in
    order. *)
Lemma visit_scan (e : entry) :
  ∀ dir st,
    uncaught (visit fl settings clock dir e st) = None →
    visit fl settings clock dir e st
    = fold_left (load_scanned fl settings clock) (scan_entry dir e) st.
Proof.
  induction e as [name children IH | name content | name | name msg]
    using entry_forall_ind; intros dir st; cbn [visit scan_entry].
  - revert st. induction IH as [|c cs Hc _ IHcs]; intros st; cbn [fold_left flat_map].
    + reflexivity.
    + intros Hu. rewrite fold_left_app.
      pose proof (walk_started _ cs _ Hu) as Hc'.
      rewrite <- (Hc _ _ Hc'). apply IHcs, Hu.
  - destruct (String.eqb (extname name) ".js"); reflexivity.
  - reflexivity.
  - destruct (uncaught st) eqn:Hu; [congruence | discriminate].
Qed.

Lemma loadModules_scan (dir : string) (files : list entry) (st : loader) :
  uncaught (loadModules fl settings clock dir (Some files) st) = None →
  loadModules fl settings clock dir (Some files) st
  = fold_left (load_scanned fl settings clock) (scan dir files) st.
Proof.
  unfold loadModules, scan. revert st.
  induction files as [|e es IH]; intros st; cbn [fold_left flat_map].
  - reflexivity.
  - intros Hu. rewrite fold_left_app.
    pose proof (walk_started _ es _ Hu) as He.
    rewrite <- (visit_scan _ _ _ He). apply IH, Hu.
Qed.

Lemma scanned_cons_loads (f : string * required) (fs : list (string * required))
    (route : layer) (info : Route.t) :
  load_module fl settings f.2 = Normal (route, info) →
  loaded_routes fl settings (f :: fs) = info :: loaded_routes fl settings fs
  ∧ loaded_layers fl settings (f :: fs) = route :: loaded_layers fl settings fs
  ∧ failing fl settings (f :: fs) = failing fl settings fs.
Proof.
  intros Hf. unfold loaded_routes, loaded_layers, failing, loads.
  rewrite filter_cons. simpl. rewrite Hf.
  rewrite decide_False by discriminate. auto.
Qed.

Lemma scanned_cons_throws (f : string * required) (fs : list (string * required))
    (message : string) :
  load_module fl settings f.2 = Throw message →
  loaded_routes fl settings (f :: fs) = loaded_routes fl settings fs
  ∧ loaded_layers fl settings (f :: fs) = loaded_layers fl settings fs
  ∧ failing fl settings (f :: fs) = f :: failing fl settings fs
  ∧ thrown fl settings f.2 = message.
Proof.
  intros Hf. unfold loaded_routes, loaded_layers, failing, loads, thrown.
  rewrite filter_cons. simpl. rewrite Hf.
  rewrite decide_True by reflexivity. auto.
Qed.

Lemma scanned_cons_nullish (f : string * required) (fs : list (string * required)) :
  load_module fl settings f.2 = ThrowNullish →
  loaded_routes fl settings (f :: fs) = loaded_routes fl settings fs
  ∧ loaded_layers fl settings (f :: fs) = loaded_layers fl settings fs
  ∧ failing fl settings (f :: fs) = f :: failing fl settings fs.
Proof.
  intros Hf. unfold loaded_routes, loaded_layers, failing, loads.
  rewrite filter_cons. simpl. rewrite Hf.
  rewrite decide_True by reflexivity. auto.
Qed.

(** The state after a sequence of files that nothing stops, in terms
    of the files. *)
Lemma load_scanned_fold (fs : list (string * required)) :
  ∀ st,
    let st' := fold_left (load_scanned fl settings clock) fs st in
    uncaught st' = None →
    apiModules st' = apiModules st ++ loaded_routes fl settings fs
    ∧ registered st' = registered st ++ loaded_layers fl settings fs
    ∧ totalRoutes st' = totalRoutes st + length (loaded_routes fl settings fs)
    ∧ loadErrors st' = loadErrors st ++
        imap (fun k f =>
                {| LoadError.file := f.1;
                   LoadError.error := thrown fl settings f.2;
                   LoadError.timestamp := clock (length (loadErrors st) + k) |})
          (failing fl settings fs)
    ∧ Forall (fun f => f.2 ≠ RequireThrowsNullish) fs.
Proof.
  induction fs as [|f fs IH]; intros st; cbn zeta.
  - simpl. rewrite !app_nil_r, Nat.add_0_r. auto.
  - cbn [fold_left]. intros Hu.
    pose proof (load_scanned_started _ _ Hu) as Hu1.
    assert (uncaught st = None) as Hu0.
    { unfold load_scanned in Hu1.
      destruct (uncaught st) as [message|] eqn:Hst; [|reflexivity].
      rewrite (load_file_halted _ _ _ _ Hst), Hst in Hu1. discriminate Hu1. }
    destruct (IH (load_scanned fl settings clock st f) Hu) as (Hm & Hr & Ht & He & Hn).
    rewrite Hm, Hr, Ht, He. clear IH Hm Hr Ht He.
    unfold load_scanned in Hu1 |- *.
    destruct (load_module fl settings f.2) as [[route info]|message|] eqn:Hf.
    + rewrite (load_file_loads _ _ _ _ _ Hu0 Hf).
      destruct (scanned_cons_loads f fs route info Hf) as (-> & -> & ->).
      cbn [totalRoutes apiModules loadErrors registered].
      rewrite <- !app_assoc. cbn [app length].
      repeat split; try reflexivity; [lia|].
      constructor; [|exact Hn]. intros Hc. rewrite Hc in Hf. discriminate Hf.
    + rewrite (load_file_throws _ _ _ _ Hu0 Hf).
      destruct (scanned_cons_throws f fs message Hf) as (-> & -> & -> & Hmsg).
      cbn [totalRoutes apiModules loadErrors registered].
      cbn [imap]. rewrite Nat.add_0_r, Hmsg, <- !app_assoc. cbn [app].
      repeat split; try reflexivity.
      * do 2 f_equal.
        apply imap_ext. intros k x _. cbn.
        rewrite length_app. cbn [length]. do 2 f_equal. lia.
      * constructor; [|exact Hn]. intros Hc. rewrite Hc in Hf. discriminate Hf.
    + exfalso. apply load_module_nullish in Hf. rewrite Hf in Hu1.
      rewrite (load_file_nullish _ _ Hu0) in Hu1. discriminate Hu1.
Qed.

Lemma scan_state (dir : string) (files : list entry) :
  let st := loadModules fl settings clock dir (Some files) loader_init in
  uncaught st = None →
  apiModules st = loaded_routes fl settings (scan dir files)
  ∧ registered st = loaded_layers fl settings (scan dir files)
  ∧ totalRoutes st = length (loaded_routes fl settings (scan dir files))
  ∧ loadErrors st = expected_errors fl settings clock (scan dir files).
Proof.
  cbn zeta. intros Hu. rewrite loadModules_scan in Hu |- * by exact Hu.
  destruct (load_scanned_fold (scan dir files) loader_init Hu)
    as (Hm & Hr & Ht & He & _).
  auto.
Qed.

(** The routes of a scan are those of its loading files alone. *)
Lemma loaded_filter (fs : list (string * required)) :
  loaded_routes fl settings fs
  = loaded_routes fl settings
      (filter (fun f => loads fl settings f.2 = true) fs)
  ∧ loaded_layers fl settings fs
    = loaded_layers fl settings
        (filter (fun f => loads fl settings f.2 = true) fs).
Proof.
  induction fs as [|f fs [IHr IHl]]; [split; reflexivity|].
  rewrite filter_cons.
  destruct (load_module fl settings f.2) as [[route info]|message|] eqn:Hf.
  - rewrite decide_True by (unfold loads; rewrite Hf; reflexivity).
    destruct (scanned_cons_loads f fs route info Hf) as (-> & -> & _).
    destruct (scanned_cons_loads f
                (filter (fun f => loads fl settings f.2 = true) fs)
                route info Hf) as (-> & -> & _).
    rewrite <- IHr, <- IHl. split; reflexivity.
  - rewrite decide_False by (unfold loads; rewrite Hf; discriminate).
    destruct (scanned_cons_throws f fs message Hf) as (-> & -> & _).
    split; assumption.
  - rewrite decide_False by (unfold loads; rewrite Hf; discriminate).
    destruct (scanned_cons_nullish f fs Hf) as (-> & -> & _).
    split; assumption.
Qed.

(** The validation of a module whose [meta] and handler are there. *)
Lemma validate_checks (m : Meta.t) (h : handler) :
  validate fl settings {| meta := Some m; onStart := Some h |} =
    if negb (str_truthy (Meta.path m)) || negb (str_truthy (Meta.name m))
    then Throw (msg_required fl)
    else if bool_decide (toLowerCase (str_or (Meta.method m) "get") ∈ validMethods)
    then Normal
           ({| l_method := toLowerCase (str_or (Meta.method m) "get");
               l_path := routePath fl (default "" (Meta.path m));
               l_target := ModuleRoute (default "" (Meta.name m)) h |},
            route_of fl settings m (default "" (Meta.path m)))
    else Throw ("Invalid HTTP method: "
                +:+ toLowerCase (str_or (Meta.method m) "get")).
Proof.
  unfold validate. cbn [meta onStart some_or_throw mbind completion_bind].
  destruct (negb (str_truthy (Meta.path m)) || negb (str_truthy (Meta.name m)));
    cbn [throw_if mbind completion_bind]; [reflexivity|].
  destruct (bool_decide (toLowerCase (str_or (Meta.method m) "get") ∈ validMethods));
    reflexivity.
Qed.

Lemma load_module_validation (m : Meta.t) (h : handler) :
  let content := Returned (Some {| meta := Some m; onStart := Some h |}) in
  load_module fl settings content =
    if negb (str_truthy (Meta.path m)) || negb (str_truthy (Meta.name m))
    then Throw (msg_required fl)
    else if bool_decide (toLowerCase (str_or (Meta.method m) "get") ∈ validMethods)
    then Normal
           ({| l_method := toLowerCase (str_or (Meta.method m) "get");
               l_path := routePath fl (default "" (Meta.path m));
               l_target := ModuleRoute (default "" (Meta.name m)) h |},
            route_of fl settings m (default "" (Meta.path m)))
    else Throw ("Invalid HTTP method: "
                +:+ toLowerCase (str_or (Meta.method m) "get")).
Proof. apply validate_checks. Qed.

(** An invalid module never loads, whatever else it exports and
    whatever Express says of its path; it throws the message of the
    check it fails. *)
Lemma invalid_module_throws (module : exports) (m : Meta.t) :
  meta module = Some m → invalid m →
  ∃ message,
    validate fl settings module = Throw message
    ∧ load_module fl settings (Returned (Some module)) = Throw message
    ∧ (∀ refusal, load_module fl settings (Refused module refusal) = Throw message)
    ∧ loads fl settings (Returned (Some module)) = false.
Proof.
  intros Hm Hinv.
  assert (∃ message, validate fl settings module = Throw message) as (message & Hv).
  { destruct module as [mt [h|]]; cbn [meta] in Hm; subst mt; [|eexists; reflexivity].
    rewrite validate_checks.
    destruct Hinv as [Hn | [Hp | Hmeth]].
    - rewrite Hn. cbn [negb]. rewrite orb_true_r. eexists; reflexivity.
    - rewrite Hp. eexists; reflexivity.
    - destruct (negb _ || negb _); [eexists; reflexivity|].
      rewrite bool_decide_eq_false_2 by exact Hmeth. eexists; reflexivity. }
  exists message. unfold loads. cbn [load_module]. rewrite Hv.
  repeat split.
Qed.

(** The counter, the registry and the routes grow together. *)
Lemma visit_counts (e : entry) (dir : string) (st : loader) :
  totalRoutes st = length (apiModules st)
  ∧ length (registered st) = totalRoutes st →
  let st' := visit fl settings clock dir e st in
  totalRoutes st' = length (apiModules st')
  ∧ length (registered st') = totalRoutes st'.
Proof.
  cbn zeta. apply (visit_preserves
    (fun s => totalRoutes s = length (apiModules s)
              ∧ length (registered s) = totalRoutes s)).
  - intros p c s _ [Hs Hr]. unfold load_file.
    destruct (uncaught s); [auto|].
    destruct (load_module fl settings c) as [[route info]|message|];
      cbn [totalRoutes apiModules registered halt]; rewrite ?length_app;
      cbn [length]; split; lia.
  - intros message s Hs. exact Hs.
Qed.

End LoaderFacts.

Lemma load_module_inv (fl : flavor) (settings : json) (content : required)
    (route : layer) (info : Route.t) :
  load_module fl settings content = Normal (route, info) →
  ∃ m h,
    content = Returned (Some {| meta := Some m; onStart := Some h |})
    ∧ str_truthy (Meta.path m) = true
    ∧ str_truthy (Meta.name m) = true
    ∧ toLowerCase (str_or (Meta.method m) "get") ∈ validMethods
    ∧ route = {| l_method := toLowerCase (str_or (Meta.method m) "get");
                 l_path := routePath fl (default "" (Meta.path m));
                 l_target := ModuleRoute (default "" (Meta.name m)) h |}
    ∧ info = route_of fl settings m (default "" (Meta.path m)).
Proof.
  destruct content as [msg | | [[[m|] [h|]]|] | module msg]; try discriminate.
  - rewrite load_module_validation.
    destruct (str_truthy (Meta.path m)) eqn:Hp; [|discriminate].
    destruct (str_truthy (Meta.name m)) eqn:Hn; [|discriminate].
    cbn [negb orb]. case_bool_decide as Hm; [|discriminate].
    intros [= <- <-]. exists m, h. repeat split; auto.
  - cbn [load_module]. destruct (validate fl settings module); discriminate.
Qed.

(** Invalid modules and the rest of the scan.  A module that lacks a
    name or a path, or declares a method outside get, post, put, delete, patch,
    head and options (compared in lower case), never loads.  While no
    exception has escaped the walk, a file whose [try] block throws an
    error with a message adds exactly one LoadError, carrying its
    path, the message thrown and the time, and changes neither the
    routes nor the registry nor the counter.  After a whole scan that
    nothing has stopped the errors are one per failing file, in scan
    order, and the routes and registry elements are exactly those that
    the loading files alone would have produced. *)
Lemma invalid_module_one_error_scan_continues (fl : flavor) (settings : json)
    (clock : nat → string) (dir : string) (files : list entry) :
  let st := loadModules fl settings clock dir (Some files) loader_init in
  let scanned := scan dir files in
  let loading := filter (fun f => loads fl settings f.2 = true) scanned in
  (∀ module m, meta module = Some m → invalid m →
     loads fl settings (Returned (Some module)) = false)
  ∧ (∀ filePath content message st0,
       uncaught st0 = None →
       load_module fl settings content = Throw message →
       let st1 := load_file fl settings clock filePath content st0 in
       loadErrors st1 = loadErrors st0 ++
         [{| LoadError.file := filePath;
             LoadError.error := message;
             LoadError.timestamp := clock (length (loadErrors st0)) |}]
       ∧ registered st1 = registered st0
       ∧ apiModules st1 = apiModules st0
       ∧ totalRoutes st1 = totalRoutes st0
       ∧ uncaught st1 = None)
  ∧ (uncaught st = None →
       loadErrors st = expected_errors fl settings clock scanned
       ∧ length (loadErrors st) = length (failing fl settings scanned)
       ∧ registered st = loaded_layers fl settings loading
       ∧ apiModules st = loaded_routes fl settings loading).
Proof.
  cbn zeta.
  split.
  { intros module m Hm Hinv.
    destruct (invalid_module_throws fl settings module m Hm Hinv)
      as (message & _ & _ & _ & Hl). exact Hl. }
  split.
  { intros filePath content message st0 Hu Hc.
    rewrite (load_file_throws fl settings clock _ _ _ _ Hu Hc). auto. }
  intros Hu.
  destruct (scan_state fl settings clock dir files Hu) as (Hm & Hr & _ & He).
  destruct (loaded_filter fl settings (scan dir files)) as (Hfr & Hfl).
  split; [exact He|].
  split; [rewrite He; unfold expected_errors; apply length_imap|].
  split; [rewrite Hr; exact Hfl | rewrite Hm; exact Hfr].
Qed.

(** C3. A file whose top level throws [null] or [undefined] stops the
    scan.  In the folder below, [a-nameless.js] lacks a name,
    [c-trace.js] declares the method TRACE and [hello.js] is valid.
    Scanned as they are, the two invalid files leave one LoadError
    each and hello.js is registered.  With [b-throws.js] between them,
    whose top level is [throw undefined], the [catch] block throws
    while it reads [error.message]: the walk ends there, c-trace.js
    gets no LoadError and hello.js is never loaded.  An entry that
    [statSync] cannot read ends the walk in the same way. *)
Theorem nullish_throw_aborts_the_scan :
  let hello := fun _ : request =>
    {| actions := [Respond 200 (JObj {[ "message" := JStr "Hello, world!" ]})];
       settles := Fulfils |} in
  let meta_of name method :=
    {| Meta.path := Some "/example/hello"; Meta.name := name;
       Meta.method := method; Meta.description := None;
       Meta.category := Some "Example"; Meta.author := None;
       Meta.version := None; Meta.tags := None; Meta.deprecated := None;
       Meta.rateLimit := None; Meta.authentication := None;
       Meta.ladybugFeature := None |} in
  let file name method :=
    Returned (Some {| meta := Some (meta_of name method); onStart := Some hello |}) in
  let nameless := RegularFile "a-nameless.js" (file None (Some "GET")) in
  let throws := RegularFile "b-throws.js" RequireThrowsNullish in
  let link := Unreadable "b-link" "ENOENT: no such file or directory, stat" in
  let rest :=
    [RegularFile "c-trace.js" (file (Some "Trace") (Some "TRACE"));
     RegularFile "hello.js" (file (Some "Hello API") (Some "GET"))] in
  let scan_of children :=
    loadModules Api (fallback_settings Api) (fun k => pretty k)
      "/srv/api" (Some [Directory "example" children]) loader_init in
  (uncaught (scan_of (nameless :: rest)) = None
   ∧ LoadError.file <$> loadErrors (scan_of (nameless :: rest))
     = ["/srv/api/example/a-nameless.js"; "/srv/api/example/c-trace.js"]
   ∧ LoadError.error <$> loadErrors (scan_of (nameless :: rest))
     = ["Missing required meta.path or meta.name"; "Invalid HTTP method: trace"]
   ∧ l_path <$> registered (scan_of (nameless :: rest)) = ["/api/example/hello"])
  ∧ (uncaught (scan_of (nameless :: throws :: rest))
     = Some "TypeError: Cannot read properties of undefined (reading 'message')"
     ∧ LoadError.file <$> loadErrors (scan_of (nameless :: throws :: rest))
       = ["/srv/api/example/a-nameless.js"]
     ∧ registered (scan_of (nameless :: throws :: rest)) = []
     ∧ totalRoutes (scan_of (nameless :: throws :: rest)) = 0)
  ∧ (uncaught (scan_of (nameless :: link :: rest))
     = Some "ENOENT: no such file or directory, stat"
     ∧ LoadError.file <$> loadErrors (scan_of (nameless :: link :: rest))
       = ["/srv/api/example/a-nameless.js"]
     ∧ registered (scan_of (nameless :: link :: rest)) = []).
Proof. cbn zeta. repeat split; reflexivity. Qed.

(** The counter and the registry.  After any scan, stopped or not,
    the counter is the length of the registry and the number of module
    routes.  While no exception has escaped, a file either pushes one
    registry element and adds one to the counter, the errors staying
    as they are, or pushes one LoadError, the registry and the counter
    staying as they are, or (when it throws [null] or [undefined])
    stops the walk and leaves all three as they are.  The
    introspection endpoints hand back the state they were given. *)
Lemma counter_is_registry_length (fl : flavor) (settings : json)
    (clock : nat → string) :
  (∀ dir listing,
     let st := loadModules fl settings clock dir listing loader_init in
     totalRoutes st = length (apiModules st)
     ∧ length (registered st) = totalRoutes st)
  ∧ (∀ filePath content st,
       uncaught st = None →
       let st' := load_file fl settings clock filePath content st in
       (∃ route info,
          load_module fl settings content = Normal (route, info)
          ∧ apiModules st' = apiModules st ++ [info]
          ∧ registered st' = registered st ++ [route]
          ∧ totalRoutes st' = S (totalRoutes st)
          ∧ loadErrors st' = loadErrors st
          ∧ uncaught st' = None)
       ∨ (∃ message,
            load_module fl settings content = Throw message
            ∧ loadErrors st' = loadErrors st ++
                [{| LoadError.file := filePath;
                    LoadError.error := message;
                    LoadError.timestamp := clock (length (loadErrors st)) |}]
            ∧ apiModules st' = apiModules st
            ∧ registered st' = registered st
            ∧ totalRoutes st' = totalRoutes st
            ∧ uncaught st' = None)
       ∨ (content = RequireThrowsNullish
          ∧ loadErrors st' = loadErrors st
          ∧ apiModules st' = apiModules st
          ∧ registered st' = registered st
          ∧ totalRoutes st' = totalRoutes st
          ∧ is_Some (uncaught st')))
  ∧ (∀ dir e st,
       totalRoutes st = length (apiModules st)
       ∧ length (registered st) = totalRoutes st →
       let st' := visit fl settings clock dir e st in
       totalRoutes st' = length (apiModules st')
       ∧ length (registered st') = totalRoutes st')
  ∧ (∀ uptime memory nodeVersion now st,
       (info settings uptime now st).2 = st
       ∧ (health settings uptime memory now st).2 = st
       ∧ (stats settings uptime nodeVersion now st).2 = st).
Proof.
  split.
  { intros dir listing. cbn zeta.
    apply (loadModules_preserves fl settings clock
      (fun s => totalRoutes s = length (apiModules s)
                ∧ length (registered s) = totalRoutes s)).
    - intros p c s _ [Hs Hr]. unfold load_file.
      destruct (uncaught s); [auto|].
      destruct (load_module fl settings c) as [[route info]|message|];
        cbn [totalRoutes apiModules registered halt]; rewrite ?length_app;
        cbn [length]; split; lia.
    - intros message s Hs. exact Hs.
    - split; reflexivity. }
  split.
  { intros filePath content st Hu. cbn zeta.
    destruct (load_module fl settings content) as [[route info]|message|] eqn:Hc.
    - left. exists route, info.
      rewrite (load_file_loads fl settings clock _ _ _ _ _ Hu Hc).
      repeat split.
    - right. left. exists message.
      rewrite (load_file_throws fl settings clock _ _ _ _ Hu Hc).
      repeat split.
    - right. right. apply load_module_nullish in Hc. subst content.
      rewrite (load_file_nullish fl settings clock _ _ Hu).
      repeat split. eexists; reflexivity. }
  split; [intros dir e st; apply visit_counts|].
  intros uptime memory nodeVersion now st. repeat split.
Qed.

(** C9. A file whose top level throws [null] or [undefined] is
    processed and appends neither a registry element nor a LoadError.
    After hello.js has been loaded (one registry element, counter 1),
    loading [throws.js] leaves the registry, the counter and the
    errors as they were: the [catch] block throws before it records
    anything.  The exception escapes, and a valid file that comes
    next is not loaded. *)
Theorem nullish_throw_appends_nothing :
  let hello := fun _ : request =>
    {| actions := [Respond 200 (JObj {[ "message" := JStr "Hello, world!" ]})];
       settles := Fulfils |} in
  let valid name path :=
    Returned (Some {| meta := Some
      {| Meta.path := Some path; Meta.name := Some name;
         Meta.method := Some "GET"; Meta.description := None;
         Meta.category := Some "Example"; Meta.author := None;
         Meta.version := None; Meta.tags := None; Meta.deprecated := None;
         Meta.rateLimit := None; Meta.authentication := None;
         Meta.ladybugFeature := None |};
      onStart := Some hello |}) in
  let load name content :=
    visit Api (fallback_settings Api) (fun k => pretty k) "/srv/api"
      (RegularFile name content) in
  let st0 := load "hello.js" (valid "Hello API" "/example/hello") loader_init in
  let st1 := load "throws.js" RequireThrowsNullish st0 in
  let st2 := load "zebra.js" (valid "Zebra API" "/example/zebra") st1 in
  (totalRoutes st0 = 1
   ∧ Route.name <$> apiModules st0 = ["Hello API"]
   ∧ l_path <$> registered st0 = ["/api/example/hello"]
   ∧ loadErrors st0 = [] ∧ uncaught st0 = None)
  ∧ (apiModules st1 = apiModules st0
     ∧ totalRoutes st1 = totalRoutes st0
     ∧ loadErrors st1 = loadErrors st0
     ∧ uncaught st1
       = Some "TypeError: Cannot read properties of undefined (reading 'message')")
  ∧ st2 = st1
  ∧ totalRoutes (load "zebra.js" (valid "Zebra API" "/example/zebra") st0) = 2.
Proof. cbn zeta. repeat split; reflexivity. Qed.


(** ** Paths *)

Lemma split_without (c : ascii) (s : string) :
  includes c s = false → split c s = [s].
Proof.
  induction s as [|a s IH]; simpl; [reflexivity|].
  intros H. apply orb_false_iff in H as [Ha Hs].
  rewrite Ha, (IH Hs). reflexivity.
Qed.

Lemma split_at_first (c : ascii) (a b : string) :
  includes c a = false →
  split c (a +:+ String c b) = a :: split c b.
Proof.
  induction a as [|x a IH]; simpl.
  - intros _. rewrite Ascii.eqb_refl. reflexivity.
  - intros H. apply orb_false_iff in H as [Hx Ha].
    rewrite Hx, (IH Ha). reflexivity.
Qed.

Lemma includes_app (c : ascii) (a b : string) :
  includes c (a +:+ b) = includes c a || includes c b.
Proof.
  induction a as [|x a IH]; simpl; [reflexivity|].
  rewrite IH. apply orb_assoc.
Qed.

Lemma split_head (c : ascii) (s : string) :
  ∃ seg segs, split c s = seg :: segs.
Proof.
  destruct s as [|a s]; simpl; [eauto|].
  destruct (Ascii.eqb a c); [eauto|].
  destruct (split c s); eauto.
Qed.

Lemma append_empty (a : string) : a +:+ "" = a.
Proof.
  induction a as [|x a IH]; [reflexivity|].
  change (String x (a +:+ "") = String x a). f_equal. exact IH.
Qed.

Lemma append_assoc (a b c : string) : (a +:+ b) +:+ c = a +:+ (b +:+ c).
Proof.
  induction a as [|x a IH]; [reflexivity|].
  change (String x ((a +:+ b) +:+ c) = String x (a +:+ (b +:+ c))).
  f_equal. exact IH.
Qed.

(** The public path is the prefix followed by what precedes the first
    question mark of the declared path. *)
Lemma routePath_plain (fl : flavor) (path : string) :
  includes "?" path = false → routePath fl path = api_prefix fl +:+ path.
Proof. intros H. unfold routePath. rewrite (split_without _ _ H). reflexivity. Qed.

Lemma routePath_query (fl : flavor) (base query : string) :
  includes "?" base = false →
  routePath fl (base +:+ String "?" query) = api_prefix fl +:+ base.
Proof. intros H. unfold routePath. rewrite (split_at_first _ _ _ H). reflexivity. Qed.

(** The displayed path: the declared path under the prefix when it has
    at most one question mark; with more, the query stops at the
    second. *)
Lemma displayPath_plain (fl : flavor) (path : string) :
  includes "?" path = false → displayPath fl path = api_prefix fl +:+ path.
Proof.
  intros H. unfold displayPath. rewrite H, (routePath_plain _ _ H).
  apply append_empty.
Qed.

Lemma displayPath_query (fl : flavor) (base query : string) :
  includes "?" base = false → includes "?" query = false →
  displayPath fl (base +:+ String "?" query)
  = api_prefix fl +:+ (base +:+ String "?" query).
Proof.
  intros Hb Hq. unfold displayPath.
  rewrite (routePath_query _ _ _ Hb), includes_app. simpl includes.
  rewrite orb_true_r, (split_at_first _ _ _ Hb), (split_without _ _ Hq).
  simpl. apply append_assoc.
Qed.

Lemma displayPath_two_marks (fl : flavor) (base query rest : string) :
  includes "?" base = false → includes "?" query = false →
  displayPath fl (base +:+ String "?" (query +:+ String "?" rest))
  = api_prefix fl +:+ (base +:+ String "?" query).
Proof.
  intros Hb Hq. unfold displayPath.
  rewrite (routePath_query _ _ _ Hb), includes_app. simpl includes.
  rewrite orb_true_r, (split_at_first _ _ _ Hb), (split_at_first _ _ _ Hq).
  simpl. apply append_assoc.
Qed.

(** C7. The module declaring the path "/search?q=a?b" is mounted at
    "/api/search", the prefix followed by the text before the first
    question mark; but the path stored in the registry is
    "/api/search?q=a": the query string "q=a?b" is cut at its own
    question mark instead of being reattached whole. *)
Theorem display_path_cuts_query_at_second_mark :
  let m :=
    {| Meta.path := Some "/search?q=a?b"; Meta.name := Some "Search";
       Meta.method := Some "GET"; Meta.description := None;
       Meta.category := None; Meta.author := None; Meta.version := None;
       Meta.tags := None; Meta.deprecated := None; Meta.rateLimit := None;
       Meta.authentication := None; Meta.ladybugFeature := None |} in
  let h := fun _ : request => {| actions := []; settles := Fulfils |} in
  ∃ route info,
    load_module Api (fallback_settings Api)
      (Returned (Some {| meta := Some m; onStart := Some h |}))
    = Normal (route, info)
    ∧ l_method route = "get"
    ∧ l_path route = "/api/search"
    ∧ Route.path info = "/api/search?q=a"
    ∧ Route.path info ≠ "/api/search?q=a?b".
Proof.
  cbn zeta. eexists _, _. split; [reflexivity|].
  repeat split; try reflexivity. discriminate.
Qed.

(** ** The route wrapper *)

Lemma timeout_body_fields (fl : flavor) :
  ∃ fields,
    timeout_body fl = JObj fields
    ∧ fields !! "status" = Some (JStr "error")
    ∧ fields !! "code" = Some (JStr (timeout_code fl)).
Proof. destruct fl; eexists; repeat split; reflexivity. Qed.

Lemma internal_body_fields (fl : flavor) :
  ∃ fields,
    internal_body fl = JObj fields
    ∧ fields !! "status" = Some (JStr "error")
    ∧ fields !! "code" = Some (JStr (internal_code fl))
    ∧ fields !! "message" = Some (JStr (internal_message fl)).
Proof. destruct fl; eexists; repeat split; reflexivity. Qed.

Section WrapperFacts.
Variable fl : flavor.
Variable settings : json.
Variable toISOString : N → string.

Lemma same_for_client_refl (x : exchange) : same_for_client x x.
Proof. repeat split. Qed.

Ltac same_exchange H x y :=
  destruct H as (?Hh & ?Hc & ?He & ?Ht);
  destruct x as [hx cx ex tx lx], y as [hy cy ey ty ly];
  cbn [headersSent client elapsed timeout] in *; subst hx cx ex tx.

Lemma status_json_same (code : nat) (data : json) (x y : exchange) :
  same_for_client x y →
  same_for_client (status_json fl settings toISOString code data x)
    (status_json fl settings toISOString code data y).
Proof.
  intros H. same_exchange H x y. unfold status_json, same_for_client.
  cbn [headersSent client elapsed timeout].
  destruct hy; [repeat split|].
  destruct (res_json fl settings (toISOString ey) data); repeat split.
Qed.

Lemma log_error_same (line line' : string) (x y : exchange) :
  same_for_client x y → same_for_client (log_error line x) (log_error line' y).
Proof. intros H. same_exchange H x y. repeat split. Qed.

Lemma at_time_same (t : N) (x y : exchange) :
  same_for_client x y → same_for_client (at_time t x) (at_time t y).
Proof. intros H. same_exchange H x y. repeat split. Qed.

Lemma with_timer_same (tm : timer) (x y : exchange) :
  same_for_client x y → same_for_client (with_timer tm x) (with_timer tm y).
Proof. intros H. same_exchange H x y. repeat split. Qed.

Lemma on_timeout_same (x y : exchange) :
  same_for_client x y →
  same_for_client (on_timeout fl settings toISOString x)
    (on_timeout fl settings toISOString y).
Proof.
  intros H. unfold on_timeout. apply with_timer_same.
  destruct H as (Hh & H'). rewrite Hh.
  destruct (headersSent y) eqn:Hy.
  - split; [congruence | exact H'].
  - apply status_json_same. split; [congruence | exact H'].
Qed.

Lemma eventually_same (x y : exchange) :
  same_for_client x y →
  same_for_client (eventually fl settings toISOString x)
    (eventually fl settings toISOString y).
Proof.
  intros H. unfold eventually.
  destruct H as (Hh & Hc & He & Ht). rewrite Ht, He.
  destruct (timeout y) eqn:Hty; try (repeat split; congruence).
  apply on_timeout_same, at_time_same. repeat split; congruence.
Qed.

(** The [catch] block answers the same whatever was thrown. *)
Lemma after_await_rejects_same (name e1 e2 : string) (x : exchange) :
  same_for_client
    (after_await fl settings toISOString name (Rejects e1) x)
    (after_await fl settings toISOString name (Rejects e2) x).
Proof.
  unfold after_await.
  pose proof (log_error_same (error_line fl name e1) (error_line fl name e2)
                x x (same_for_client_refl x)) as H.
  destruct H as (Hh & H'). rewrite Hh.
  destruct (headersSent (log_error (error_line fl name e2) x)) eqn:Hx.
  - split; [congruence | exact H'].
  - apply status_json_same. split; [congruence | exact H'].
Qed.

(** The answer of the [catch] block when nothing was sent before. *)
Lemma after_await_rejects_answers (name e : string) (x : exchange) :
  is_null settings = false → headersSent x = false →
  ∃ body,
    client (after_await fl settings toISOString name (Rejects e) x)
    = Some (500, JObj body)
    ∧ res_json fl settings (toISOString (elapsed x)) (internal_body fl)
      = Normal (JObj body)
    ∧ body !! "status" = Some (JStr "error")
    ∧ body !! "code" = Some (JStr (internal_code fl))
    ∧ body !! "message" = Some (JStr (internal_message fl)).
Proof.
  intros Hs Hx.
  destruct (internal_body_fields fl) as (fields & Hb & Hst & Hcode & Hmsg).
  destruct (res_json_keeps fl settings (toISOString (elapsed x)) fields Hs)
    as (body & Hres & Hkeep).
  exists body. unfold after_await, status_json. cbn [headersSent log_error elapsed].
  rewrite Hx, Hb, Hres. cbn [client]. repeat split; auto.
Qed.

(** After fulfilment the timer is never left armed; after a rejection
    it is left as it was. *)
Lemma after_await_fulfils_timer (name : string) (x : exchange) :
  timeout (after_await fl settings toISOString name Fulfils x) ≠ Armed.
Proof. unfold after_await. destruct (timeout x) eqn:H; simpl; congruence. Qed.

Lemma status_json_timer (code : nat) (data : json) (x : exchange) :
  timeout (status_json fl settings toISOString code data x) = timeout x.
Proof.
  unfold status_json. destruct (headersSent x); [reflexivity|].
  destruct (res_json _ _ _ _); reflexivity.
Qed.

Lemma after_await_rejects_timer (name e : string) (x : exchange) :
  timeout (after_await fl settings toISOString name (Rejects e) x) = timeout x.
Proof.
  unfold after_await. destruct (headersSent _); [reflexivity|].
  rewrite status_json_timer. reflexivity.
Qed.

(** The wrapper arms a timer of 30 seconds before it calls the
    handler. *)
Lemma wrapper_arms_timer :
  timeout armed = Armed ∧ timeout_ms = 30000%N ∧ headersSent armed = false.
Proof. repeat split. Qed.

(** When the timer fires and no response was sent, the client gets
    the 408 response with the timeout code. *)
Lemma on_timeout_answers (x : exchange) :
  is_null settings = false → headersSent x = false →
  ∃ body,
    client (on_timeout fl settings toISOString x) = Some (408, JObj body)
    ∧ body !! "status" = Some (JStr "error")
    ∧ body !! "code" = Some (JStr (timeout_code fl))
    ∧ timeout (on_timeout fl settings toISOString x) = Fired.
Proof.
  intros Hs Hx.
  destruct (timeout_body_fields fl) as (fields & Hb & Hst & Hcode).
  destruct (res_json_keeps fl settings (toISOString (elapsed x)) fields Hs)
    as (body & Hres & Hkeep).
  exists body. unfold on_timeout, status_json. rewrite Hx, Hb, Hres.
  cbn [client with_timer timeout]. repeat split; auto.
Qed.

(** Once a response is sent the timer's callback changes nothing the
    client sees. *)
Lemma on_timeout_after_response (x : exchange) :
  headersSent x = true →
  client (on_timeout fl settings toISOString x) = client x.
Proof. intros Hx. unfold on_timeout. rewrite Hx. reflexivity. Qed.

(** A handler that stays silent and pending: the client receives the
    408 response when the delay has run out; the handler is not
    touched. *)
Lemma pending_handler_times_out (name : string) (h : handler) (req : request) :
  is_null settings = false →
  actions (h req) = [] → settles (h req) = Pending →
  ∃ body,
    client (eventually fl settings toISOString
              (route_wrapper fl settings toISOString name h req))
    = Some (408, JObj body)
    ∧ body !! "code" = Some (JStr (timeout_code fl)).
Proof.
  intros Hs Ha Hp. unfold route_wrapper. rewrite Ha, Hp.
  cbn [fold_left after_await]. unfold eventually. cbn [timeout armed].
  destruct (on_timeout_answers (at_time (N.max (elapsed armed) timeout_ms) armed) Hs)
    as (body & Hc & _ & Hcode & _); [reflexivity|].
  exists body. split; assumption.
Qed.

End WrapperFacts.

(** Errors with a message never reach the client.  Two runs of a
    registered route in which the handler does the same things and then rejects (or
    throws), with two errors that each have a message: the client sees
    the same in both, at the end of the wrapper and ever after; only
    the console differs.  When no response had been sent and the
    settings are not [null], what the client sees is the 500 response
    whose body is the fixed internal-error object in its envelope:
    status "error", the generic message and the code INTERNAL_ERROR
    (LADYBUG_ERROR); the body is a function of the deployment, the
    settings and the time alone. *)
Lemma handler_error_never_reaches_client (fl : flavor) (settings : json)
    (toISOString : N → string) (name : string) (h1 h2 : handler)
    (req : request) (e1 e2 : string) :
  actions (h1 req) = actions (h2 req) →
  settles (h1 req) = Rejects e1 →
  settles (h2 req) = Rejects e2 →
  let x1 := route_wrapper fl settings toISOString name h1 req in
  let x2 := route_wrapper fl settings toISOString name h2 req in
  let before := fold_left (step fl settings toISOString) (actions (h1 req)) armed in
  client x1 = client x2
  ∧ client (eventually fl settings toISOString x1)
    = client (eventually fl settings toISOString x2)
  ∧ (is_null settings = false → headersSent before = false →
       ∃ body,
         client x1 = Some (500, JObj body)
         ∧ client (eventually fl settings toISOString x1) = Some (500, JObj body)
         ∧ res_json fl settings (toISOString (elapsed before)) (internal_body fl)
           = Normal (JObj body)
         ∧ body !! "status" = Some (JStr "error")
         ∧ body !! "code" = Some (JStr (internal_code fl))
         ∧ body !! "message" = Some (JStr (internal_message fl))).
Proof.
  intros Ha H1 H2. cbn zeta. unfold route_wrapper. rewrite H1, H2, <- Ha.
  set (before := fold_left (step fl settings toISOString) (actions (h1 req)) armed).
  pose proof (after_await_rejects_same fl settings toISOString name e1 e2 before)
    as Hsame.
  split; [apply Hsame|].
  split; [apply (eventually_same fl settings toISOString _ _ Hsame)|].
  intros Hs Hb.
  destruct (after_await_rejects_answers fl settings toISOString name e1 before Hs Hb)
    as (body & Hc & Hres & Hst & Hcode & Hmsg).
  exists body. repeat split; try assumption.
  rewrite <- Hc. unfold eventually.
  destruct (timeout _); try reflexivity.
  rewrite on_timeout_after_response; [reflexivity|].
  cbn [headersSent at_time].
  unfold after_await, status_json. cbn [headersSent log_error elapsed].
  rewrite Hb.
  destruct (internal_body_fields fl) as (fields & Hf & _).
  rewrite Hf, (res_json_object fl settings _ fields Hs). reflexivity.
Qed.

Lemma handler_error_never_reaches_client_example :
  let iso := fun t : N => pretty t in
  let req := {| req_method := "GET"; req_url := "/api/example/hello" |} in
  let failing_with e : handler :=
    fun _ => {| actions := [Sleep 12]; settles := Rejects e |} in
  client (route_wrapper Api (fallback_settings Api) iso "Hello API"
            (failing_with "ECONNREFUSED 10.0.0.7:5432") req)
  = client (route_wrapper Api (fallback_settings Api) iso "Hello API"
              (failing_with "secret token expired") req)
  ∧ ∃ body,
      client (route_wrapper Api (fallback_settings Api) iso "Hello API"
                (failing_with "ECONNREFUSED 10.0.0.7:5432") req)
      = Some (500, JObj body)
      ∧ body !! "code" = Some (JStr "INTERNAL_ERROR")
      ∧ body !! "message" = Some (JStr "Internal server error").
Proof.
  intros iso req failing_with.
  destruct (handler_error_never_reaches_client Api (fallback_settings Api) iso
              "Hello API" (failing_with "ECONNREFUSED 10.0.0.7:5432")
              (failing_with "secret token expired") req
              "ECONNREFUSED 10.0.0.7:5432" "secret token expired")
    as (Hsame & _ & Hbody); try reflexivity.
  split; [exact Hsame|].
  destruct Hbody as (body & Hc & _ & _ & _ & Hcode & Hmsg); try reflexivity.
  exists body. repeat split; assumption.
Qed.

(** C5. A handler that rejects with [undefined] (or [null], or throws
    one of them) gets no 500 response.  The [catch] block starts with
    [console.error(..., error.message)]; reading [message] of
    [undefined] throws inside the block, so the line is not written
    and [res.status(500).json(...)] is never reached.  Of two runs
    that differ only in the value the handler rejects with, an Error
    and [undefined], the client of the first receives the fixed 500
    body and the client of the second receives nothing from the
    wrapper.  The same happens for any rejection when settings.json
    holds [null]: the 500 response is lost in the envelope
    middleware. *)
Theorem nullish_rejection_gets_no_500 :
  let iso := fun t : N => pretty t in
  let req := {| req_method := "GET"; req_url := "/api/example/hello" |} in
  let wrapper := route_wrapper Api (fallback_settings Api) iso "Hello API" in
  let rejecting s : handler := fun _ => {| actions := [Sleep 12]; settles := s |} in
  (∃ body,
     client (wrapper (rejecting (Rejects "boom")) req) = Some (500, JObj body)
     ∧ body !! "status" = Some (JStr "error")
     ∧ body !! "code" = Some (JStr "INTERNAL_ERROR")
     ∧ body !! "message" = Some (JStr "Internal server error"))
  ∧ console (wrapper (rejecting (Rejects "boom")) req)
    = ["❌ Error in Hello API: boom"]
  ∧ client (wrapper (rejecting RejectsNullish) req) = None
  ∧ headersSent (wrapper (rejecting RejectsNullish) req) = false
  ∧ console (wrapper (rejecting RejectsNullish) req) = []
  ∧ timeout (wrapper (rejecting RejectsNullish) req) = Armed
  ∧ client (route_wrapper Api (load_settings Api (Parsed JNull)) iso "Hello API"
              (rejecting (Rejects "boom")) req) = None.
Proof.
  cbn zeta. split; [eexists; split; [reflexivity|]|]; repeat split; reflexivity.
Qed.

(** C4. The timer is cancelled after the handler fulfils, but not after
    it rejects: [clearTimeout] is the statement after [await] inside
    [try], and the [catch] block has none.  For a handler that rejects
    at once the wrapper ends with the timer armed (it fires later,
    after the 500 response, and sends nothing); for one that fulfils
    the wrapper ends with the timer cleared. *)
Theorem rejected_handler_leaves_timer_armed :
  let iso := fun t : N => pretty t in
  let req := {| req_method := "GET"; req_url := "/api/example/hello" |} in
  let wrapper := route_wrapper Api (fallback_settings Api) iso "Hello API" in
  let rejecting : handler :=
    fun _ => {| actions := []; settles := Rejects "boom" |} in
  let fulfilling : handler :=
    fun _ => {| actions := []; settles := Fulfils |} in
  timeout (wrapper fulfilling req) = Cleared
  ∧ timeout (wrapper rejecting req) = Armed
  ∧ fst <$> client (wrapper rejecting req) = Some 500
  ∧ timeout (eventually Api (fallback_settings Api) iso (wrapper rejecting req))
    = Fired
  ∧ client (eventually Api (fallback_settings Api) iso (wrapper rejecting req))
    = client (wrapper rejecting req).
Proof. cbn zeta. repeat split; reflexivity. Qed.

(** ** Fallback handlers *)

Lemma prefix_append (a b : string) :
  String.prefix a b = true ↔ ∃ rest, b = a +:+ rest.
Proof.
  revert b. induction a as [|x a IH]; intros b.
  - destruct b; simpl; split; eauto.
  - destruct b as [|y b]; simpl.
    + split; [discriminate | intros (rest & H); discriminate H].
    + destruct (Ascii.ascii_dec x y) as [->|Hne].
      * rewrite IH. split; intros (rest & H); exists rest.
        -- rewrite H. reflexivity.
        -- change (String y b = String y (a +:+ rest)) in H. congruence.
      * split; [discriminate|].
        intros (rest & H). change (String y b = String x (a +:+ rest)) in H.
        congruence.
Qed.

Lemma under_prefix_spec (fl : flavor) (url : string) :
  under_prefix fl url = true ↔ ∃ rest, url = api_prefix fl +:+ "/" +:+ rest.
Proof.
  unfold under_prefix. rewrite prefix_append.
  split; intros (rest & H); exists rest; rewrite H;
    [apply append_assoc | symmetry; apply append_assoc].
Qed.

Lemma not_found_body_fields (fl : flavor) :
  ∃ fields,
    not_found_body fl = JObj fields
    ∧ fields !! "status" = Some (JStr "error")
    ∧ fields !! "code" = Some (JStr (not_found_code fl))
    ∧ fields !! "suggestion"
      = Some (JStr ("Visit " +:+ listing_path fl +:+ " for available endpoints")).
Proof. destruct fl; eexists; repeat split; reflexivity. Qed.

Lemma listing_path_registered (fl : flavor) (st : loader) :
  listing_path fl ∈ l_path <$> app_routes fl st.
Proof.
  unfold app_routes. rewrite fmap_cons, fmap_app, fmap_app.
  apply elem_of_cons. right. apply elem_of_app. right.
  apply elem_of_app. left. destruct fl; apply elem_of_cons; left; reflexivity.
Qed.

Lemma notFoundHandler_page (fl : flavor) (settings : json) (now : string)
    (req : request) :
  under_prefix fl (req_url req) = false →
  notFoundHandler fl settings now req = Normal (SendFile 404 (page_404 fl)).
Proof. intros H. unfold notFoundHandler. rewrite H. reflexivity. Qed.

Lemma errorHandlerWith_page (send : json → completion json) (fl : flavor)
    (req : request) :
  under_prefix fl (req_url req) = false →
  errorHandlerWith send fl req = Normal (SendFile 500 (page_500 fl)).
Proof. intros H. unfold errorHandlerWith. rewrite H. reflexivity. Qed.

Lemma notFoundHandler_json (fl : flavor) (settings : json) (now : string)
    (req : request) :
  is_null settings = false →
  under_prefix fl (req_url req) = true →
  ∃ body,
    notFoundHandler fl settings now req = Normal (SendJson 404 (JObj body))
    ∧ body !! "status" = Some (JStr "error")
    ∧ body !! "code" = Some (JStr (not_found_code fl))
    ∧ body !! "suggestion"
      = Some (JStr ("Visit " +:+ listing_path fl +:+ " for available endpoints")).
Proof.
  intros Hs Hu.
  destruct (not_found_body_fields fl) as (fields & Hb & Hst & Hcode & Hsug).
  destruct (res_json_keeps fl settings now fields Hs) as (body & Hres & Hkeep).
  exists body. unfold notFoundHandler. rewrite Hu, Hb, Hres.
  repeat split; auto.
Qed.

Lemma notFoundHandler_null (fl : flavor) (now : string) (req : request) :
  under_prefix fl (req_url req) = true →
  notFoundHandler fl JNull now req
  = Throw "TypeError: Cannot read properties of null".
Proof.
  intros Hu. unfold notFoundHandler. rewrite Hu. destruct fl; reflexivity.
Qed.

(** When a request reaches the end of the chain. *)
Lemma dispatch_unmatched (accepts : layer → request → bool)
    (static_serves body_refused : request → bool) (fl : flavor) (st : loader)
    (req : request) :
  dispatch accepts static_serves body_refused fl st req = Unmatched
  ↔ body_refused req = false ∧ is_options req = false
    ∧ static_serves req = false
    ∧ Forall (fun l => accepts l req = false) (app_routes fl st).
Proof.
  unfold dispatch.
  destruct (body_refused req); [split; [discriminate | intros (H & _); discriminate H]|].
  destruct (is_options req);
    [split; [discriminate | intros (_ & H & _); discriminate H]|].
  destruct (static_serves req);
    [split; [discriminate | intros (_ & _ & H & _); discriminate H]|].
  destruct (find _ _) as [l|] eqn:Hf.
  - split; [discriminate|]. intros (_ & _ & _ & Hall). exfalso.
    apply find_some in Hf as [Hin Hacc]. apply list_elem_of_In in Hin.
    rewrite Forall_forall in Hall. rewrite (Hall l Hin) in Hacc. discriminate Hacc.
  - split; [|reflexivity]. intros _. repeat split.
    apply Forall_forall. intros l Hin. apply list_elem_of_In in Hin.
    exact (find_none _ _ Hf l Hin).
Qed.

(** Not every unmatched request under the prefix gets the 404
    response: an OPTIONS request under the prefix that no route
    matches is answered by the CORS middleware, which is registered
    before the routes and ends every OPTIONS request with an empty 204
    response. *)
Lemma options_request_gets_204 :
  let accepts := fun (l : layer) (req : request) =>
    String.eqb (toUpperCase (l_method l)) (req_method req)
    && String.eqb (l_path l) (req_url req) in
  let req := {| req_method := "OPTIONS"; req_url := "/api/does/not/exist" |} in
  under_prefix Api (req_url req) = true
  ∧ forallb (fun l => negb (accepts l req)) (app_routes Api loader_init) = true
  ∧ serve accepts (fun _ => false) (fun _ => false) Api (fallback_settings Api)
      "2026-01-01T00:00:00.000Z" loader_init req
    = NoContent.
Proof. cbn zeta. repeat split; reflexivity. Qed.

(** C6. A request that reaches the end of the chain (no body parser
    refuses its body, it is not an OPTIONS request, the static
    middleware has no file for it and no registered route accepts it)
    is answered by the not-found handler.  When its URL starts with
    the prefix and a slash and the settings are not [null], the answer
    is the 404 response with a JSON body of status "error", the
    not-found code (NOT_FOUND, LADYBUG_NOT_FOUND) and a suggestion
    naming the listing endpoint, itself a registered route; when its
    URL does not start so, it is the static 404 page. *)
Theorem unmatched_request_gets_404 (accepts : layer → request → bool)
    (static_serves body_refused : request → bool) (fl : flavor)
    (settings : json) (now : string) (st : loader) (req : request) :
  body_refused req = false →
  is_options req = false →
  static_serves req = false →
  Forall (fun l => accepts l req = false) (app_routes fl st) →
  (under_prefix fl (req_url req) = true → is_null settings = false →
     ∃ body,
       serve accepts static_serves body_refused fl settings now st req
       = Fallback (Normal (SendJson 404 (JObj body)))
       ∧ body !! "status" = Some (JStr "error")
       ∧ body !! "code" = Some (JStr (not_found_code fl))
       ∧ body !! "suggestion"
         = Some (JStr ("Visit " +:+ listing_path fl
                       +:+ " for available endpoints"))
       ∧ listing_path fl ∈ l_path <$> app_routes fl st)
  ∧ (under_prefix fl (req_url req) = false →
       serve accepts static_serves body_refused fl settings now st req
       = Fallback (Normal (SendFile 404 (page_404 fl)))).
Proof.
  intros Hb Ho Hs Hall.
  assert (dispatch accepts static_serves body_refused fl st req = Unmatched) as Hd
    by (apply dispatch_unmatched; auto).
  unfold serve. rewrite Hd. split.
  - intros Hu Hn.
    destruct (notFoundHandler_json fl settings now req Hn Hu)
      as (body & -> & Hst & Hcode & Hsug).
    exists body. repeat split; auto. apply listing_path_registered.
  - intros Hu. rewrite (notFoundHandler_page fl settings now req Hu). reflexivity.
Qed.

Lemma unmatched_request_gets_404_witness :
  let accepts := fun (l : layer) (req : request) =>
    String.eqb (toUpperCase (l_method l)) (req_method req)
    && String.eqb (l_path l) (req_url req) in
  let hello : handler := fun _ =>
    {| actions := [Respond 200 (JObj {[ "message" := JStr "Hello, world!" ]})];
       settles := Fulfils |} in
  let st := {| totalRoutes := 1; apiModules := []; loadErrors := [];
               registered := [{| l_method := "get"; l_path := "/api/example/hello";
                                 l_target := ModuleRoute "Hello API" hello |}];
               uncaught := None |} in
  (∃ body,
     serve accepts (fun _ => false) (fun _ => false) Api (fallback_settings Api)
       "2026-01-01T00:00:00.000Z" st
       {| req_method := "GET"; req_url := "/api/does/not/exist" |}
     = Fallback (Normal (SendJson 404 (JObj body)))
     ∧ body !! "code" = Some (JStr "NOT_FOUND")
     ∧ body !! "suggestion"
       = Some (JStr "Visit /api/info for available endpoints"))
  ∧ serve accepts (fun _ => false) (fun _ => false) Api (fallback_settings Api)
      "2026-01-01T00:00:00.000Z" st
      {| req_method := "GET"; req_url := "/nothing/here" |}
    = Fallback (Normal (SendFile 404 "web/404.html")).
Proof.
  intros accepts hello st. split.
  - assert (Forall (fun l => accepts l {| req_method := "GET";
                                          req_url := "/api/does/not/exist" |}
                             = false) (app_routes Api st)) as Hall
      by (repeat constructor).
    destruct (unmatched_request_gets_404 accepts (fun _ => false) (fun _ => false)
                Api (fallback_settings Api) "2026-01-01T00:00:00.000Z" st
                {| req_method := "GET"; req_url := "/api/does/not/exist" |}
                eq_refl eq_refl eq_refl Hall)
      as (Hjson & _).
    destruct (Hjson eq_refl eq_refl) as (body & Hserve & _ & Hcode & Hsug & _).
    exists body. repeat split; assumption.
  - assert (Forall (fun l => accepts l {| req_method := "GET";
                                          req_url := "/nothing/here" |}
                             = false) (app_routes Api st)) as Hall
      by (repeat constructor).
    destruct (unmatched_request_gets_404 accepts (fun _ => false) (fun _ => false)
                Api (fallback_settings Api) "2026-01-01T00:00:00.000Z" st
                {| req_method := "GET"; req_url := "/nothing/here" |}
                eq_refl eq_refl eq_refl Hall)
      as (_ & Hpage).
    exact (Hpage eq_refl).
Defined.

(** C10. The not-found handler and the error handler send the static
    page exactly when the URL does not start with the prefix followed
    by a slash; for a URL that does, they send JSON: the not-found
    handler the 404 body with its code (and throws, sending no page,
    when the settings are [null]), the error handler the 500 body
    through whichever [res.json] the response has.  The bare prefix
    and a URL that continues the prefix with anything but a slash do
    not pass the test, so a request for them that reaches the
    not-found handler is answered with the static 404 page. *)
Theorem json_fallback_needs_prefix_and_slash (fl : flavor) (settings : json)
    (now : string) (req : request) :
  (under_prefix fl (req_url req) = true
   ↔ ∃ rest, req_url req = api_prefix fl +:+ "/" +:+ rest)
  ∧ (notFoundHandler fl settings now req = Normal (SendFile 404 (page_404 fl))
     ↔ under_prefix fl (req_url req) = false)
  ∧ (∀ send, errorHandlerWith send fl req = Normal (SendFile 500 (page_500 fl))
             ↔ under_prefix fl (req_url req) = false)
  ∧ (under_prefix fl (req_url req) = true →
       (is_null settings = false →
          ∃ body,
            notFoundHandler fl settings now req
            = Normal (SendJson 404 (JObj body))
            ∧ body !! "code" = Some (JStr (not_found_code fl)))
       ∧ (is_null settings = true →
            notFoundHandler fl settings now req
            = Throw "TypeError: Cannot read properties of null")
       ∧ errorHandlerWith express_json fl req
         = Normal (SendJson 500 (server_error_body fl)))
  ∧ under_prefix fl (api_prefix fl) = false
  ∧ under_prefix fl (api_prefix fl +:+ "x") = false
  ∧ (∀ rest, under_prefix fl (api_prefix fl +:+ rest) = String.prefix "/" rest)
  ∧ (∀ accepts static_serves body_refused st,
       dispatch accepts static_serves body_refused fl st req = Unmatched →
       under_prefix fl (req_url req) = false →
       serve accepts static_serves body_refused fl settings now st req
       = Fallback (Normal (SendFile 404 (page_404 fl)))).
Proof.
  split; [apply under_prefix_spec|].
  split.
  { split; [|apply notFoundHandler_page].
    unfold notFoundHandler. destruct (under_prefix fl (req_url req)); [|reflexivity].
    destruct (res_json fl settings now (not_found_body fl)); discriminate. }
  split.
  { intros send. split; [|apply errorHandlerWith_page].
    unfold errorHandlerWith. destruct (under_prefix fl (req_url req)); [|reflexivity].
    destruct (send (server_error_body fl)); discriminate. }
  split.
  { intros Hu. split; [|split].
    - intros Hn.
      destruct (notFoundHandler_json fl settings now req Hn Hu)
        as (body & Hres & _ & Hcode & _).
      exists body. split; assumption.
    - intros Hn. destruct settings; try discriminate Hn.
      apply notFoundHandler_null, Hu.
    - unfold errorHandlerWith. rewrite Hu. reflexivity. }
  split; [destruct fl; reflexivity|].
  split; [destruct fl; reflexivity|].
  split; [intros rest; destruct fl; destruct rest; reflexivity|].
  intros accepts static_serves body_refused st Hd Hu.
  unfold serve. rewrite Hd, (notFoundHandler_page _ _ _ _ Hu). reflexivity.
Qed.

Lemma json_fallback_needs_prefix_and_slash_witness :
  let accepts := fun (l : layer) (req : request) =>
    String.eqb (toUpperCase (l_method l)) (req_method req)
    && String.eqb (l_path l) (req_url req) in
  let now := "2026-01-01T00:00:00.000Z" in
  serve accepts (fun _ => false) (fun _ => false) Api (fallback_settings Api) now
    loader_init {| req_method := "GET"; req_url := "/api" |}
  = Fallback (Normal (SendFile 404 "web/404.html"))
  ∧ serve accepts (fun _ => false) (fun _ => false) Ladybug
      (fallback_settings Ladybug) now
      loader_init {| req_method := "GET"; req_url := "/ladybugx" |}
    = Fallback (Normal (SendFile 404 "web/ladybug-404.html"))
  ∧ (∃ body,
       notFoundHandler Api (fallback_settings Api) now
         {| req_method := "GET"; req_url := "/api/" |}
       = Normal (SendJson 404 (JObj body))
       ∧ body !! "code" = Some (JStr "NOT_FOUND"))
  ∧ errorHandlerWith express_json Ladybug
      {| req_method := "POST"; req_url := "/ladybug/upload" |}
    = Normal (SendJson 500 (server_error_body Ladybug)).
Proof.
  intros accepts now. split; [|split; [|split]].
  - destruct (json_fallback_needs_prefix_and_slash Api (fallback_settings Api) now
                {| req_method := "GET"; req_url := "/api" |})
      as (_ & _ & _ & _ & _ & _ & _ & H).
    exact (H accepts (fun _ => false) (fun _ => false) loader_init eq_refl eq_refl).
  - destruct (json_fallback_needs_prefix_and_slash Ladybug
                (fallback_settings Ladybug) now
                {| req_method := "GET"; req_url := "/ladybugx" |})
      as (_ & _ & _ & _ & _ & _ & _ & H).
    exact (H accepts (fun _ => false) (fun _ => false) loader_init eq_refl eq_refl).
  - destruct (json_fallback_needs_prefix_and_slash Api (fallback_settings Api) now
                {| req_method := "GET"; req_url := "/api/" |})
      as (_ & _ & _ & H & _).
    destruct (H eq_refl) as (Hjson & _). exact (Hjson eq_refl).
  - destruct (json_fallback_needs_prefix_and_slash Ladybug
                (fallback_settings Ladybug) now
                {| req_method := "POST"; req_url := "/ladybug/upload" |})
      as (_ & _ & _ & H & _).
    destruct (H eq_refl) as (_ & _ & Hjson). exact Hjson.
Defined.


(** ** Introspection endpoints *)

Lemma set_size_distinct (xs : list string) : set_size xs = distinct xs.
Proof.
  unfold set_size, distinct.
  rewrite <- (size_list_to_set (C := gset string) (remove_dups xs))
    by apply NoDup_remove_dups.
  f_equal. apply set_eq. intros x.
  rewrite !elem_of_list_to_set, elem_of_remove_dups. reflexivity.
Qed.

Lemma update_keys (k : string) (f : Group.t → Group.t)
    (categories : list (string * Group.t)) :
  (update k f categories).*1 = categories.*1.
Proof.
  unfold update. induction categories as [|[k' g] cs IH]; [reflexivity|].
  cbn [map]. rewrite !fmap_cons, IH. cbn [fst snd].
  destruct (String.eqb k' k); reflexivity.
Qed.

Lemma update_forall (P : string * Group.t → Prop) (k : string)
    (f : Group.t → Group.t) (categories : list (string * Group.t)) :
  Forall (fun kg => P (if String.eqb kg.1 k then (kg.1, f kg.2) else kg))
    categories →
  Forall P (update k f categories).
Proof.
  unfold update. induction 1 as [|kg cs Hkg _ IH]; cbn [map]; constructor;
    assumption.
Qed.

Lemma of_category_snoc (c : string) (modules : list Route.t) (m : Route.t) :
  of_category c (modules ++ [m])
  = of_category c modules ++ (if decide (Route.category m = c) then [m] else []).
Proof.
  unfold of_category. rewrite filter_app, filter_cons, filter_nil.
  reflexivity.
Qed.

Lemma of_category_none (c : string) (modules : list Route.t) :
  c ∉ Route.category <$> modules → of_category c modules = [].
Proof.
  unfold of_category. induction modules as [|m ms IH]; [reflexivity|].
  rewrite fmap_cons, not_elem_of_cons. intros [Hne Hms].
  rewrite filter_cons, decide_False by congruence. exact (IH Hms).
Qed.

(** One step of [/api/info] for a category that is no name of
    [Object.prototype]: the group is created when the category is new,
    then the item is pushed and the count incremented. *)
Lemma info_step_own (categories : list (string * Group.t)) (n : nat)
    (module : Route.t) :
  Route.category module ∉ object_prototype →
  info_step (categories, n) module
  = Normal
      (update (Route.category module)
         (fun g => {| Group.name := Group.name g;
                      Group.count := S (Group.count g);
                      Group.items := Group.items g |})
         (update (Route.category module)
            (fun g => {| Group.name := Group.name g;
                         Group.count := Group.count g;
                         Group.items := Group.items g ++ [item_json module] |})
            (if bool_decide (Route.category module ∈ categories.*1)
             then categories
             else categories ++
                    [(Route.category module,
                      {| Group.name := Route.category module;
                         Group.count := 0; Group.items := [] |})])),
       S n).
Proof.
  intros Hc. unfold info_step.
  rewrite (bool_decide_eq_false_2 (Route.category module ∈ object_prototype))
    by exact Hc.
  rewrite orb_false_r.
  destruct (bool_decide (Route.category module ∈ categories.*1)) eqn:Hin.
  - rewrite Hin. reflexivity.
  - rewrite bool_decide_eq_true_2; [reflexivity|].
    rewrite fmap_app. apply elem_of_app. right.
    apply list_elem_of_singleton. reflexivity.
Qed.

(** For a category that is a name of [Object.prototype] and no own
    key, the step throws. *)
Lemma info_step_inherited (categories : list (string * Group.t)) (n : nat)
    (module : Route.t) :
  Route.category module ∈ object_prototype →
  Route.category module ∉ categories.*1 →
  info_step (categories, n) module
  = Throw "TypeError: Cannot read properties of undefined (reading 'push')".
Proof.
  intros Hc Hin. unfold info_step.
  rewrite (bool_decide_eq_true_2 (Route.category module ∈ object_prototype))
    by exact Hc.
  rewrite orb_true_r, bool_decide_eq_false_2 by exact Hin. reflexivity.
Qed.

Lemma info_loop_snoc (modules : list Route.t) (m : Route.t) :
  info_loop (modules ++ [m]) = (a ← info_loop modules; info_step a m).
Proof. unfold info_loop. rewrite fold_left_app. reflexivity. Qed.

(** The groups after the loop of [/api/info], when no category is a
    name of [Object.prototype]. *)
Lemma info_loop_groups (modules : list Route.t) :
  Forall (fun m => Route.category m ∉ object_prototype) modules →
  ∃ groups,
    info_loop modules = Normal (groups, length modules)
    ∧ NoDup groups.*1
    ∧ (∀ c, c ∈ groups.*1 ↔ c ∈ Route.category <$> modules)
    ∧ Forall (fun kg => kg.2 = group_of kg.1 modules) groups.
Proof.
  induction modules as [|m ms IH] using rev_ind; intros Hall.
  - exists []. split; [reflexivity|]. split; [constructor|].
    split; [intros c; reflexivity | constructor].
  - apply Forall_app in Hall as [Hms Hm].
    apply Forall_cons in Hm as [Hm _].
    destruct (IH Hms) as (cats & Hloop & Hnd & Hin & Hgroups).
    rewrite info_loop_snoc, Hloop. cbn [mbind completion_bind].
    rewrite (info_step_own cats (length ms) m Hm).
    eexists. split; [rewrite length_app, Nat.add_1_r; reflexivity|].
    rewrite !update_keys.
    assert ((if bool_decide (Route.category m ∈ cats.*1) then cats
             else cats ++ [(Route.category m,
                            {| Group.name := Route.category m;
                               Group.count := 0; Group.items := [] |})]).*1
            = if bool_decide (Route.category m ∈ cats.*1) then cats.*1
              else cats.*1 ++ [Route.category m]) as Hkeys.
    { case_bool_decide; [reflexivity|]. rewrite fmap_app. reflexivity. }
    rewrite Hkeys. split; [|split].
    + case_bool_decide as Hc; [exact Hnd|].
      apply NoDup_app. split; [exact Hnd|]. split.
      * intros x Hx Hx'. apply list_elem_of_singleton in Hx'. subst x. auto.
      * apply NoDup_singleton.
    + intros c. rewrite fmap_app, elem_of_app, fmap_cons, elem_of_cons, <- Hin.
      case_bool_decide as Hc.
      * split; [tauto|]. intros [?|[->|?]]; auto.
        exfalso. eapply elem_of_nil. eassumption.
      * rewrite elem_of_app, list_elem_of_singleton.
        split; [intros [?|?]; auto|intros [?|[?|?]]; auto].
        exfalso. eapply elem_of_nil. eassumption.
    + apply update_forall, update_forall.
      assert (Forall (fun kg : string * Group.t => kg.2 = group_of kg.1 ms)
                (if bool_decide (Route.category m ∈ cats.*1) then cats
                 else cats ++ [(Route.category m,
                                {| Group.name := Route.category m;
                                   Group.count := 0; Group.items := [] |})]))
        as Hcats.
      { case_bool_decide as Hc; [exact Hgroups|].
        apply Forall_app. split; [exact Hgroups|]. constructor; [|constructor].
        cbn [fst snd]. unfold group_of. rewrite of_category_none; [reflexivity|].
        intros Hc'. apply Hc, Hin. exact Hc'. }
      eapply Forall_impl; [exact Hcats|].
      intros [k g] Hg. cbn [fst snd] in Hg. subst g. cbn [fst snd].
      destruct (String.eqb k (Route.category m)) eqn:Hk; cbn [fst snd].
      * rewrite Hk. cbn [fst snd]. apply String.eqb_eq in Hk. subst k.
        unfold group_of. rewrite of_category_snoc, decide_True by reflexivity.
        cbn [Group.name Group.count Group.items].
        rewrite length_app, fmap_app. cbn [length]. f_equal. lia.
      * rewrite Hk. cbn [snd fst]. apply String.eqb_neq in Hk.
        unfold group_of. rewrite of_category_snoc, decide_False by congruence.
        rewrite app_nil_r. reflexivity.
Qed.

(** With a module whose category is a name of [Object.prototype], the
    loop throws. *)
Lemma info_loop_inherited (modules : list Route.t) :
  Exists (fun m => Route.category m ∈ object_prototype) modules →
  info_loop modules
  = Throw "TypeError: Cannot read properties of undefined (reading 'push')".
Proof.
  induction modules as [|m ms IH] using rev_ind; intros Hex.
  - inversion Hex.
  - rewrite info_loop_snoc.
    destruct (decide (Exists (fun m => Route.category m ∈ object_prototype) ms))
      as [Hms | Hms].
    + rewrite (IH Hms). reflexivity.
    + apply Exists_app in Hex as [Hex | Hex]; [contradiction|].
      apply Exists_cons in Hex as [Hm | Hex]; [|inversion Hex].
      apply (not_Exists_Forall _) in Hms.
      destruct (info_loop_groups ms) as (cats & -> & _ & Hin & _).
      { eapply Forall_impl; [exact Hms|]. intros x Hx. exact Hx. }
      cbn [mbind completion_bind]. apply info_step_inherited; [exact Hm|].
      intros Hc. apply Hin in Hc. apply list_elem_of_fmap in Hc as (x & Hx & Hxin).
      rewrite Forall_forall in Hms. apply (Hms x Hxin). cbn. rewrite <- Hx. exact Hm.
Qed.

(** An item and a group as the listing shows them. *)
Lemma item_json_shows (m : Route.t) : shows (item_json m) m.
Proof.
  unfold shows, item_json. eexists. split; [reflexivity|].
  split.
  { cbn [list_to_map foldr fst snd]. rewrite !dom_insert_L, dom_empty_L.
    set_solver. }
  repeat split; reflexivity.
Qed.

Lemma group_json_lists (modules : list Route.t) (c : string) :
  lists modules (group_json (group_of c modules)) c.
Proof.
  unfold lists, group_json, group_of.
  cbn [Group.name Group.count Group.items].
  eexists _, _. split; [reflexivity|].
  split.
  { cbn [list_to_map foldr fst snd]. rewrite !dom_insert_L, dom_empty_L.
    set_solver. }
  repeat split; try reflexivity.
  induction (of_category c modules) as [|m ms IH]; [constructor|].
  rewrite fmap_cons. constructor; [apply item_json_shows | exact IH].
Qed.

Lemma scan_categories_cons (fl : flavor) (settings : json)
    (f : string * required) (fs : list (string * required)) :
  scan_categories fl settings (f :: fs)
  = match f.2 with
    | Returned (Some module) =>
        match meta module with
        | Some m =>
            if loads fl settings f.2
            then shown_category fl m :: scan_categories fl settings fs
            else scan_categories fl settings fs
        | None => scan_categories fl settings fs
        end
    | _ => scan_categories fl settings fs
    end.
Proof.
  unfold scan_categories. simpl.
  destruct f.2 as [| |[[[m|] ?]|]|]; try reflexivity.
  destruct (loads fl settings _); reflexivity.
Qed.

(** What a scan that nothing stops leaves in the registry, in terms of
    what the files declare. *)
Lemma loaded_routes_count (fl : flavor) (settings : json)
    (fs : list (string * required)) :
  length (loaded_routes fl settings fs)
  = length (filter (fun f => loads fl settings f.2 = true) fs)
  ∧ length (loaded_routes fl settings fs) + length (failing fl settings fs)
    = length fs
  ∧ Route.category <$> loaded_routes fl settings fs
    = scan_categories fl settings fs.
Proof.
  induction fs as [|f fs (IHn & IHe & IHc)]; [repeat split|].
  rewrite filter_cons, scan_categories_cons.
  destruct (load_module fl settings f.2) as [[route info]|message|] eqn:Hf.
  - rewrite decide_True by (unfold loads; rewrite Hf; reflexivity).
    destruct (scanned_cons_loads fl settings f fs route info Hf) as (-> & _ & ->).
    destruct (load_module_inv _ _ _ _ _ Hf) as (m & h & Hc & _ & _ & _ & _ & ->).
    assert (loads fl settings f.2 = true) as Hl by (unfold loads; rewrite Hf; reflexivity).
    rewrite Hl, Hc. cbn [meta length]. rewrite fmap_cons, IHc, IHn.
    split; [reflexivity|]. split; [rewrite <- IHn; lia|].
    destruct fl; reflexivity.
  - rewrite decide_False by (unfold loads; rewrite Hf; discriminate).
    destruct (scanned_cons_throws fl settings f fs message Hf)
      as (-> & _ & -> & _).
    assert (loads fl settings f.2 = false) as Hl by (unfold loads; rewrite Hf; reflexivity).
    rewrite Hl. cbn [length]. repeat split; [exact IHn | lia |].
    rewrite IHc. destruct f.2 as [| |[[[m|] ?]|]|]; reflexivity.
  - rewrite decide_False by (unfold loads; rewrite Hf; discriminate).
    destruct (scanned_cons_nullish fl settings f fs Hf) as (-> & _ & ->).
    assert (loads fl settings f.2 = false) as Hl by (unfold loads; rewrite Hf; reflexivity).
    rewrite Hl. cbn [length]. repeat split; [exact IHn | lia |].
    rewrite IHc. destruct f.2 as [| |[[[m|] ?]|]|]; reflexivity.
Qed.

(** C8. A module whose category is "constructor" (or any other name
    that every object inherits from [Object.prototype]) breaks the
    listing.  After a scan that loads hello.js of category "Example"
    and odd.js of category "constructor", with no error, the
    statistics report 2 routes, 2 categories and 0 errors, but
    [/api/info] throws when it reaches odd.js: [categories] is a plain
    [{}], [categories["constructor"]] is the inherited constructor, so
    no group is created and [.items.push] fails.  The summary is never
    sent; the client receives the 500 response of the error handler.
    With settings.json holding [null], neither endpoint reports
    anything. *)
Theorem inherited_category_breaks_the_listing :
  let respond text : handler := fun _ =>
    {| actions := [Respond 200 (JObj {[ "message" := JStr text ]})];
       settles := Fulfils |} in
  let file name path category :=
    Returned (Some {| meta := Some
      {| Meta.path := Some path; Meta.name := Some name;
         Meta.method := Some "GET"; Meta.description := None;
         Meta.category := Some category; Meta.author := None;
         Meta.version := None; Meta.tags := None; Meta.deprecated := None;
         Meta.rateLimit := None; Meta.authentication := None;
         Meta.ladybugFeature := None |};
      onStart := Some (respond name) |}) in
  let files :=
    [Directory "example"
       [RegularFile "hello.js" (file "Hello API" "/example/hello" "Example");
        RegularFile "odd.js" (file "Odd API" "/example/odd" "constructor")]] in
  let st := loadModules Api (fallback_settings Api) (fun k => pretty k)
              "/srv/api" (Some files) loader_init in
  let now := "2026-01-01T00:00:00.000Z" in
  (totalRoutes st = 2
   ∧ Route.category <$> apiModules st = ["Example"; "constructor"]
   ∧ loadErrors st = [] ∧ uncaught st = None)
  ∧ (∃ body,
       (stats (fallback_settings Api) (JNum 12) (JStr "v20.11.0") now st).1
       = Normal (SendJson 200 (JObj body))
       ∧ body !! "totalRoutes" = Some (JNat 2)
       ∧ body !! "categories" = Some (JNat 2)
       ∧ body !! "loadErrors" = Some (JNat 0))
  ∧ (info (fallback_settings Api) (JNum 12) now st).1
    = Throw "TypeError: Cannot read properties of undefined (reading 'push')"
  ∧ (∃ body,
       errorHandler Api (fallback_settings Api) now
         {| req_method := "GET"; req_url := "/api/info" |}
       = Normal (SendJson 500 (JObj body))
       ∧ body !! "code" = Some (JStr "INTERNAL_ERROR"))
  ∧ (stats (load_settings Api (Parsed JNull)) (JNum 12) (JStr "v20.11.0") now st).1
    = Throw "TypeError: Cannot read properties of null".
Proof.
  cbn zeta. split; [repeat split; reflexivity|].
  split; [eexists; split; [reflexivity|]; repeat split; reflexivity|].
  split; [reflexivity|].
  split; [eexists; split; [reflexivity|]; reflexivity|].
  reflexivity.
Qed.


(** * Further properties *)

(** ** Splitting and joining *)

Lemma join_cons (c : ascii) (a : ascii) (seg : string) (segs : list string) :
  join c (String a seg :: segs) = String a (join c (seg :: segs)).
Proof. destruct segs; reflexivity. Qed.

Lemma join_split (c : ascii) (s : string) : join c (split c s) = s.
Proof.
  induction s as [|a s IH]; [reflexivity|].
  cbn [split]. destruct (Ascii.eqb a c) eqn:Hac.
  - apply Ascii.eqb_eq in Hac. subst a.
    destruct (split_head c s) as (seg & segs & Hs).
    rewrite Hs in IH |- *.
    change (join c ("" :: seg :: segs)) with (String c (join c (seg :: segs))).
    rewrite IH. reflexivity.
  - destruct (split_head c s) as (seg & segs & Hs).
    rewrite Hs in IH |- *. rewrite join_cons, IH. reflexivity.
Qed.

Lemma split_segments_free (c : ascii) (s : string) :
  Forall (fun seg => includes c seg = false) (split c s).
Proof.
  induction s as [|a s IH]; cbn [split].
  - repeat constructor.
  - destruct (Ascii.eqb a c) eqn:Hac.
    + constructor; [reflexivity | exact IH].
    + destruct (split c s) as [|seg segs]; [repeat constructor; simpl|].
      * rewrite Hac. reflexivity.
      * inversion IH as [|? ? Hseg Hsegs]; subst. constructor; [|exact Hsegs].
        simpl. rewrite Hac, Hseg. reflexivity.
Qed.

Lemma split_length (c : ascii) (s : string) :
  length (split c s) = S (count_char c s).
Proof.
  induction s as [|a s IH]; [reflexivity|].
  cbn [split count_char]. destruct (Ascii.eqb a c).
  - cbn [length]. rewrite IH. reflexivity.
  - destruct (split c s); cbn [length] in *; lia.
Qed.

Lemma includes_count (c : ascii) (s : string) :
  includes c s = false ↔ count_char c s = 0.
Proof.
  induction s as [|a s IH]; simpl; [tauto|].
  destruct (Ascii.eqb a c); simpl; [split; [discriminate | lia]|exact IH].
Qed.

Lemma count_char_app (c : ascii) (a b : string) :
  count_char c (a +:+ b) = count_char c a + count_char c b.
Proof.
  induction a as [|x a IH]; [reflexivity|].
  change (count_char c (String x (a +:+ b))
          = count_char c (String x a) + count_char c b).
  cbn [count_char]. rewrite IH. lia.
Qed.

Lemma first_mark (c : ascii) (s : string) :
  includes c s = true →
  ∃ a b, s = a +:+ String c b ∧ includes c a = false.
Proof.
  induction s as [|x s IH]; simpl; [discriminate|].
  destruct (Ascii.eqb x c) eqn:Hx.
  - intros _. apply Ascii.eqb_eq in Hx. subst x. exists "", s. split; reflexivity.
  - simpl. intros Hs. destruct (IH Hs) as (a & b & -> & Ha).
    exists (String x a), b. split; [reflexivity|]. simpl. rewrite Hx, Ha. reflexivity.
Qed.

Lemma append_length (a b : string) :
  String.length (a +:+ b) = String.length a + String.length b.
Proof.
  induction a as [|x a IH]; [reflexivity|].
  change (S (String.length (a +:+ b)) = S (String.length a) + String.length b).
  rewrite IH. reflexivity.
Qed.

(** X1. The path stored in the registry is the declared path under the
    prefix exactly when the declared path has at most one question
    mark. *)
Theorem displayPath_faithful_iff (fl : flavor) (path : string) :
  displayPath fl path = api_prefix fl +:+ path ↔ (count_char "?" path ≤ 1)%nat.
Proof.
  destruct (includes "?" path) eqn:Hin.
  - destruct (first_mark _ _ Hin) as (a & q & -> & Ha).
    assert (count_char "?" a = 0) as Ha0 by (apply includes_count, Ha).
    rewrite count_char_app. cbn [count_char]. rewrite Ascii.eqb_refl, Ha0.
    destruct (includes "?" q) eqn:Hq.
    + destruct (first_mark _ _ Hq) as (b & r & -> & Hb).
      rewrite (displayPath_two_marks fl a b r Ha Hb), count_char_app.
      cbn [count_char]. rewrite Ascii.eqb_refl.
      split; [|lia]. intros H. apply (f_equal String.length) in H.
      rewrite !append_length in H. cbn [String.length] in H.
      rewrite !append_length in H. cbn [String.length] in H. lia.
    + rewrite (displayPath_query fl a q Ha Hq).
      apply includes_count in Hq. rewrite Hq. split; [lia | reflexivity].
  - rewrite (displayPath_plain fl path Hin).
    apply includes_count in Hin. rewrite Hin. split; [lia | reflexivity].
Qed.

(** X2. When ALLOWED_ORIGINS is set to a non-empty text, the origins
    given to the CORS middleware are the pieces between its commas:
    there is at least one, none contains a comma, and joined with
    commas they give the text back, so nothing is trimmed or dropped.
    When it is unset or empty, every origin is allowed. *)
Theorem cors_origin_pieces (env : option string) :
  match cors_origin env with
  | AnyOrigin => env = None ∨ env = Some ""
  | Origins allowed =>
      ∃ text, env = Some text ∧ text ≠ ""
        ∧ join "," allowed = text
        ∧ length allowed = S (count_char "," text)
        ∧ Forall (fun o => includes "," o = false) allowed
  end.
Proof.
  unfold cors_origin. destruct env as [text|]; simpl; [|auto].
  destruct (String.eqb text "") eqn:Ht; simpl.
  - apply String.eqb_eq in Ht. subst text. right. reflexivity.
  - apply String.eqb_neq in Ht. exists text.
    repeat split; auto using join_split, split_length, split_segments_free.
Qed.

(** ** Which files are loaded *)

Lemma from_last_dot_js (s : string) : from_last_dot (s +:+ ".js") = Some ".js".
Proof.
  induction s as [|a s IH]; [reflexivity|].
  change (from_last_dot (String a (s +:+ ".js")) = Some ".js").
  cbn [from_last_dot]. rewrite IH. reflexivity.
Qed.

Lemma from_last_dot_inv (s ext : string) :
  from_last_dot s = Some ext → ∃ pre, s = pre +:+ ext.
Proof.
  revert ext. induction s as [|a s IH]; intros ext; cbn [from_last_dot].
  - discriminate.
  - destruct (from_last_dot s) as [e|].
    + intros [= <-]. destruct (IH e eq_refl) as (pre & ->).
      exists (String a pre). reflexivity.
    + destruct (Ascii.eqb a "."); [|discriminate].
      intros [= <-]. exists "". reflexivity.
Qed.

Lemma extname_js (name : string) :
  String.eqb (extname name) ".js" = true ↔ js_name name.
Proof.
  unfold js_name. rewrite String.eqb_eq. split.
  - destruct name as [|x rest]; cbn [extname]; [discriminate|].
    destruct (String.eqb (String x rest) ".."); [discriminate|].
    destruct (from_last_dot rest) as [e|] eqn:He; simpl; [|discriminate].
    intros ->. destruct (from_last_dot_inv _ _ He) as (pre & ->).
    exists (String x pre). split; [discriminate | reflexivity].
  - intros (stem & Hstem & ->). destruct stem as [|x pre]; [congruence|].
    change (extname (String x (pre +:+ ".js")) = ".js"). cbn [extname].
    assert (String.eqb (String x (pre +:+ ".js")) ".." = false) as ->.
    { apply String.eqb_neq. intros H. apply (f_equal String.length) in H.
      cbn [String.length] in H. rewrite append_length in H.
      cbn [String.length] in H. lia. }
    rewrite from_last_dot_js. reflexivity.
Qed.

(** X3. The walk loads a regular file exactly when its name ends in
    ".js" (in lower case) after a non-empty stem; any other file, and
    anything that is neither a file nor a directory, leaves the state
    as it was. *)
Theorem only_js_files_are_loaded (fl : flavor) (settings : json)
    (clock : nat → string) (dir name : string) (content : required)
    (st : loader) :
  (js_name name →
     visit fl settings clock dir (RegularFile name content) st
     = load_file fl settings clock (path_join dir name) content st)
  ∧ (¬ js_name name →
       visit fl settings clock dir (RegularFile name content) st = st)
  ∧ visit fl settings clock dir (Special name) st = st
  ∧ ¬ js_name ".js" ∧ ¬ js_name "hello.JS" ∧ ¬ js_name "hello.json"
  ∧ js_name "hello.test.js".
Proof.
  split; [|split; [|split; [reflexivity|]]].
  - intros H. apply extname_js in H. cbn [visit]. rewrite H. reflexivity.
  - intros H. cbn [visit].
    destruct (String.eqb (extname name) ".js") eqn:He; [|reflexivity].
    apply extname_js in He. contradiction.
  - repeat split.
    + rewrite <- extname_js. discriminate.
    + rewrite <- extname_js. discriminate.
    + rewrite <- extname_js. discriminate.
    + apply extname_js. reflexivity.
Qed.

Lemma only_js_files_are_loaded_witness :
  let st := loader_init in
  visit Api (fallback_settings Api) (fun k => pretty k) "/srv/api"
    (RegularFile "notes.txt" (RequireThrows "never required")) st = st
  ∧ loadErrors
      (visit Api (fallback_settings Api) (fun k => pretty k) "/srv/api"
         (RegularFile "broken.js" (RequireThrows "Unexpected token")) st)
    = [{| LoadError.file := "/srv/api/broken.js";
          LoadError.error := "Unexpected token";
          LoadError.timestamp := "0" |}].
Proof.
  intros st.
  destruct (only_js_files_are_loaded Api (fallback_settings Api)
              (fun k => pretty k) "/srv/api" "notes.txt"
              (RequireThrows "never required") st) as (_ & Hskip & _).
  destruct (only_js_files_are_loaded Api (fallback_settings Api)
              (fun k => pretty k) "/srv/api" "broken.js"
              (RequireThrows "Unexpected token") st) as (Hload & _).
  split.
  - apply Hskip. rewrite <- extname_js. discriminate.
  - rewrite Hload; [reflexivity|]. apply extname_js. reflexivity.
Defined.

Lemma scan_entry_paths (e : entry) :
  ∀ dir p c,
    (p, c) ∈ scan_entry dir e →
    ∃ rest, p = dir +:+ "/" +:+ rest +:+ ".js".
Proof.
  induction e as [name children IH | name content | name | name msg]
    using entry_forall_ind; intros dir p c; cbn [scan_entry].
  - intros Hin. apply list_elem_of_In, in_flat_map in Hin as (child & Hc & Hp).
    apply list_elem_of_In in Hc, Hp.
    rewrite Forall_forall in IH.
    destruct (IH child Hc _ _ _ Hp) as (rest & ->).
    exists (name +:+ "/" +:+ rest). unfold path_join.
    rewrite ?append_assoc. reflexivity.
  - destruct (String.eqb (extname name) ".js") eqn:He.
    + intros Hin. apply list_elem_of_singleton in Hin. injection Hin as -> ->.
      apply extname_js in He as (stem & _ & ->).
      exists stem. unfold path_join. rewrite ?append_assoc. reflexivity.
    + intros Hin. apply elem_of_nil in Hin. contradiction.
  - intros Hin. apply elem_of_nil in Hin. contradiction.
  - intros Hin. apply elem_of_nil in Hin. contradiction.
Qed.

(** X4. Every error recorded by a scan of the folder [dir] names a
    file below [dir] whose name ends in ".js". *)
Theorem load_errors_name_js_files (fl : flavor) (settings : json)
    (clock : nat → string) (dir : string) (files : list entry) :
  Forall (fun e => ∃ rest, LoadError.file e = dir +:+ "/" +:+ rest +:+ ".js")
    (loadErrors (loadModules fl settings clock dir (Some files) loader_init)).
Proof.
  apply (loadModules_preserves fl settings clock
    (fun s => Forall (fun e => ∃ rest, LoadError.file e
                                       = dir +:+ "/" +:+ rest +:+ ".js")
                (loadErrors s))).
  - intros p c s Hin Hs. cbn [default] in Hin. unfold scan in Hin.
    apply list_elem_of_In, in_flat_map in Hin as (entry & _ & Hp).
    apply list_elem_of_In in Hp.
    unfold load_file. destruct (uncaught s); [exact Hs|].
    destruct (load_module fl settings c) as [[route info]|message|];
      cbn [loadErrors halt]; try exact Hs.
    apply Forall_app. split; [exact Hs|].
    constructor; [|constructor]. exact (scan_entry_paths entry dir p c Hp).
  - intros message s Hs. exact Hs.
  - constructor.
Qed.

(** ** What a loaded module must have, and what it leaves behind *)

(** X5. What a file needs to load.  A file loads exactly when
    [require] returns exports that hold a [meta] object and a handler,
    [meta] has a non-empty path and name, the method, if any, is one of
    the seven in any letter case, and Express takes the route; nothing
    else is required of it.  When Express refuses the path of such a
    module, the file is a load error with Express's message; when a
    check fails, it is a load error with the message of the check,
    whatever Express would say. *)
Theorem loads_iff_well_formed (fl : flavor) (settings : json)
    (content : required) :
  (loads fl settings content = true
   ↔ ∃ module, content = Returned (Some module) ∧ well_formed module)
  ∧ (∀ module message,
       content = Refused module message →
       (well_formed module →
          load_module fl settings content = Throw message)
       ∧ (¬ well_formed module →
            load_module fl settings content
            = load_module fl settings (Returned (Some module))
            ∧ ∃ check, load_module fl settings content = Throw check
                       ∧ check ∈ [msg_meta fl; msg_onStart fl; msg_required fl;
                                  "Invalid HTTP method: "
                                  +:+ toLowerCase
                                        (str_or (mbind Meta.method (meta module))
                                           "get")])).
Proof.
  split.
  { unfold loads, well_formed. split.
    - destruct (load_module fl settings content) as [[route info]| |] eqn:Hl;
        [|discriminate|discriminate].
      intros _. destruct (load_module_inv _ _ _ _ _ Hl)
        as (m & h & -> & Hp & Hn & Hm & _).
      eexists. split; [reflexivity|]. exists m, h. auto.
    - intros ([mt hd] & -> & m & h & Hmeta & Hh & Hp & Hn & Hm).
      cbn [meta onStart] in Hmeta, Hh. subst mt hd.
      rewrite load_module_validation, Hp, Hn. cbn [negb orb].
      rewrite bool_decide_eq_true_2 by exact Hm. reflexivity. }
  intros module message ->. cbn [load_module]. split.
  - intros (m & h & Hmeta & Hh & Hp & Hn & Hm).
    destruct module as [mt hd]. cbn [meta onStart] in Hmeta, Hh. subst mt hd.
    rewrite validate_checks, Hp, Hn. cbn [negb orb].
    rewrite bool_decide_eq_true_2 by exact Hm. reflexivity.
  - intros Hwf. destruct module as [[m|] [h|]];
      try (split; [reflexivity|]; eexists; split; [reflexivity|];
           cbn [meta mbind option_bind];
           repeat (apply elem_of_cons; first [left; reflexivity | right])).
    rewrite validate_checks.
    destruct (str_truthy (Meta.path m)) eqn:Hp; cbn [negb orb];
      [|split; [reflexivity|]; eexists; split; [reflexivity|];
        repeat (apply elem_of_cons; first [left; reflexivity | right])].
    destruct (str_truthy (Meta.name m)) eqn:Hn; cbn [negb orb];
      [|split; [reflexivity|]; eexists; split; [reflexivity|];
        repeat (apply elem_of_cons; first [left; reflexivity | right])].
    case_bool_decide as Hm.
    + exfalso. apply Hwf. exists m, h. auto.
    + split; [reflexivity|]. eexists. split; [reflexivity|].
      cbn [meta mbind option_bind].
      repeat (apply elem_of_cons; first [left; reflexivity | right]).
Qed.

Lemma loads_iff_well_formed_witness :
  let hello := fun _ : request =>
    {| actions := [Respond 200 (JObj {[ "message" := JStr "Hello, world!" ]})];
       settles := Fulfils |} in
  let module path method :=
    {| meta := Some
         {| Meta.path := Some path; Meta.name := Some "Hello API";
            Meta.method := method; Meta.description := None;
            Meta.category := None; Meta.author := None; Meta.version := None;
            Meta.tags := None; Meta.deprecated := None; Meta.rateLimit := None;
            Meta.authentication := None; Meta.ladybugFeature := None |};
       onStart := Some hello |} in
  loads Api (fallback_settings Api) (Returned (Some (module "/hello" None))) = true
  ∧ load_module Api (fallback_settings Api)
      (Refused (module "/hello(" (Some "Post")) "Unterminated group")
    = Throw "Unterminated group".
Proof.
  intros hello module. split.
  - apply (loads_iff_well_formed Api (fallback_settings Api)).
    eexists. split; [reflexivity|].
    eexists _, _. repeat split.
    apply (bool_decide_unpack _). vm_compute. exact I.
  - destruct (loads_iff_well_formed Api (fallback_settings Api)
                (Refused (module "/hello(" (Some "Post")) "Unterminated group"))
      as (_ & H).
    destruct (H _ _ eq_refl) as (H1 & _). apply H1.
    eexists _, _. repeat split.
    apply (bool_decide_unpack _). vm_compute. exact I.
Defined.





Lemma str_or_nonempty (v : option string) (d : string) :
  d ≠ "" → str_or v d ≠ "".
Proof.
  intros Hd. destruct v as [s|]; simpl; [|exact Hd].
  destruct (String.eqb s "") eqn:Hs; [exact Hd|]. apply String.eqb_neq, Hs.
Qed.

(** X7. No element of the registry has an empty name, description,
    category, method or version: the name is checked, the others are
    filled in when the module leaves them out or empty. *)
Theorem registry_fields_are_filled (fl : flavor) (settings : json)
    (clock : nat → string) (dir : string) (listing : option (list entry)) :
  Forall (fun r => Route.name r ≠ "" ∧ Route.description r ≠ ""
                   ∧ Route.category r ≠ "" ∧ Route.method r ≠ ""
                   ∧ Route.version r ≠ "")
    (apiModules (loadModules fl settings clock dir listing loader_init)).
Proof.
  apply (loadModules_preserves fl settings clock
    (fun s => Forall (fun r => Route.name r ≠ "" ∧ Route.description r ≠ ""
                               ∧ Route.category r ≠ "" ∧ Route.method r ≠ ""
                               ∧ Route.version r ≠ "")
                (apiModules s))).
  - intros p c s _ Hs. unfold load_file. destruct (uncaught s); [exact Hs|].
    destruct (load_module fl settings c) as [[route info]|message|] eqn:Hc;
      cbn [apiModules halt]; try exact Hs.
    apply Forall_app. split; [exact Hs|]. constructor; [|constructor].
    destruct (load_module_inv _ _ _ _ _ Hc) as (m & h & _ & _ & Hn & _ & _ & ->).
    cbn [route_of Route.name Route.description Route.category Route.method
         Route.version].
    split.
    { destruct (Meta.name m) as [x|]; simpl in *; [|discriminate].
      destruct (String.eqb x "") eqn:Hx; [discriminate|].
      apply String.eqb_neq, Hx. }
    repeat split; apply str_or_nonempty; try discriminate.
    destruct fl; discriminate.
  - intros message s Hs. exact Hs.
  - constructor.
Qed.

(** ** Order of the routes *)

Lemma find_first {A} (f : A → bool) (l : list A) (x : A) :
  find f l = Some x →
  ∃ before after,
    l = before ++ x :: after
    ∧ Forall (fun y => f y = false) before
    ∧ f x = true.
Proof.
  induction l as [|y l IH]; cbn [find]; [discriminate|].
  destruct (f y) eqn:Hy.
  - intros [= <-]. exists [], l. repeat split; [constructor | exact Hy].
  - intros Hx. destruct (IH Hx) as (before & after & -> & Hb & Hfx).
    exists (y :: before), after. repeat split; [constructor; assumption | exact Hfx].
Qed.




(** ** More on the route wrapper *)

Section WrapperMore.
Variable fl : flavor.
Variable settings : json.
Variable toISOString : N → string.

Lemma at_time_same_time (x : exchange) : at_time (elapsed x) x = x.
Proof. destruct x; reflexivity. Qed.

(** Once a response is committed, nothing the handler, the wrapper or
    the timer does changes what the client has. *)
Lemma step_committed (x : exchange) (a : action) :
  headersSent x = true →
  headersSent (step fl settings toISOString x a) = true ∧ client (step fl settings toISOString x a) = client x.
Proof.
  intros Hx. destruct a as [d | code data]; cbn [step].
  - unfold pass. destruct (timeout x); try (split; [exact Hx | reflexivity]).
    destruct (N.leb _ _); [|split; [exact Hx | reflexivity]].
    unfold on_timeout. cbn [headersSent at_time]. rewrite Hx.
    split; [exact Hx | reflexivity].
  - unfold status_json. rewrite Hx. split; [exact Hx | reflexivity].
Qed.

Lemma steps_committed (acts : list action) :
  ∀ x, headersSent x = true →
       headersSent (fold_left (step fl settings toISOString) acts x) = true
       ∧ client (fold_left (step fl settings toISOString) acts x) = client x.
Proof.
  induction acts as [|a acts IH]; intros x Hx; cbn [fold_left]; [auto|].
  destruct (step_committed x a Hx) as (Hh & Hc).
  destruct (IH _ Hh) as (Hh' & Hc'). split; [exact Hh' | congruence].
Qed.

Lemma after_await_committed (name : string) (s : settlement) (x : exchange) :
  headersSent x = true →
  headersSent (after_await fl settings toISOString name s x) = true
  ∧ client (after_await fl settings toISOString name s x) = client x.
Proof.
  intros Hx. destruct s as [| message | |]; cbn [after_await].
  - destruct (timeout x); split; auto.
  - cbn [headersSent log_error]. rewrite Hx. split; [exact Hx | reflexivity].
  - auto.
  - auto.
Qed.

Lemma eventually_committed (x : exchange) :
  headersSent x = true → client (eventually fl settings toISOString x) = client x.
Proof.
  intros Hx. unfold eventually. destruct (timeout x); try reflexivity.
  unfold on_timeout. cbn [headersSent at_time]. rewrite Hx. reflexivity.
Qed.

(** A handler that only waits, for less than the delay in all. *)
Lemma steps_silent_fast (acts : list action) :
  ∀ x, silent acts = true → timeout x = Armed →
       (elapsed x + total_sleep acts < timeout_ms)%N →
       fold_left (step fl settings toISOString) acts x = at_time (elapsed x + total_sleep acts) x.
Proof.
  induction acts as [|[d | code data] acts IH]; intros x Hs Ht Hlt.
  - cbn [fold_left total_sleep]. rewrite N.add_0_r. symmetry.
    apply at_time_same_time.
  - cbn [fold_left total_sleep step silent forallb] in *.
    unfold pass. rewrite Ht.
    assert (N.leb timeout_ms (elapsed x + d) = false) as ->
      by (apply N.leb_gt; lia).
    rewrite IH; [| exact Hs | exact Ht | cbn [elapsed at_time]; lia].
    rewrite N.add_assoc. unfold at_time.
    cbn [headersSent client elapsed timeout console]. reflexivity.
  - discriminate Hs.
Qed.


End WrapperMore.

(** X9. The first response wins.  When the handler waits for less than
    30 seconds in all and then responds, the client receives that
    response, in its envelope stamped with the time of the call,
    whatever the handler does next (a second response, a rejection) and
    whenever the timer fires. *)
Theorem first_response_wins (fl : flavor) (settings : json)
    (toISOString : N → string) (name : string) (h : handler) (req : request)
    (before after : list action) (code : nat) (data body : json) :
  actions (h req) = before ++ Respond code data :: after →
  silent before = true →
  (total_sleep before < timeout_ms)%N →
  res_json fl settings (toISOString (total_sleep before)) data = Normal body →
  client (route_wrapper fl settings toISOString name h req) = Some (code, body)
  ∧ client (eventually fl settings toISOString
              (route_wrapper fl settings toISOString name h req))
    = Some (code, body).
Proof.
  intros Ha Hs Hlt Hres. unfold route_wrapper. rewrite Ha, fold_left_app.
  rewrite (steps_silent_fast fl settings toISOString before armed Hs eq_refl)
    by exact Hlt.
  cbn [fold_left step elapsed armed]. rewrite N.add_0_l.
  set (x1 := status_json fl settings toISOString code data
               (at_time (total_sleep before) armed)).
  assert (headersSent x1 = true ∧ client x1 = Some (code, body)) as (Hh1 & Hc1).
  { unfold x1, status_json. cbn [headersSent at_time armed elapsed].
    rewrite Hres. split; reflexivity. }
  destruct (steps_committed fl settings toISOString after x1 Hh1) as (Hh2 & Hc2).
  destruct (after_await_committed fl settings toISOString name (settles (h req))
              _ Hh2) as (Hh3 & Hc3).
  split; [congruence|].
  rewrite (eventually_committed fl settings toISOString _ Hh3). congruence.
Qed.

Lemma first_response_wins_witness :
  let iso := fun t : N => pretty t in
  let h : handler := fun _ =>
    {| actions := [Sleep 250; Respond 201 (JStr "created");
                   Sleep 40000; Respond 200 (JStr "again")];
       settles := Rejects "too late" |} in
  let req := {| req_method := "POST"; req_url := "/api/things" |} in
  client (eventually Api JNull iso (route_wrapper Api JNull iso "Things" h req))
  = Some (201, JStr "created").
Proof.
  intros iso h req.
  apply (first_response_wins Api JNull iso "Things" h req [Sleep 250%N]
           [Sleep 40000%N; Respond 200 (JStr "again")] 201 (JStr "created")
           (JStr "created")); reflexivity.
Defined.





(** ** The envelope, further *)

Lemma envelope_defaults_dom (fl : flavor) (settings : json) (now : string) :
  dom (envelope_defaults fl settings now) = envelope_keys fl.
Proof.
  unfold envelope_defaults, envelope_literal, envelope_keys.
  destruct fl; rewrite !dom_insert_L, dom_empty_L; set_solver.
Qed.

(** X12. The envelope adds its own fields and no other: the names in
    the client's body are those of the handler's object together with
    status, operator (developer), timestamp and version (and, in the
    ladybug deployment, framework and ladybug).  The settings are any
    value but [null]. *)
Theorem envelope_adds_only_its_keys (fl : flavor) (settings : json)
    (now : string) (fields : gmap string json) :
  is_null settings = false →
  ∃ body,
    res_json fl settings now (JObj fields) = Normal (JObj body)
    ∧ dom body = dom fields ∪ envelope_keys fl.
Proof.
  intros Hs. eexists. split; [apply res_json_object, Hs|].
  rewrite dom_union_L, envelope_defaults_dom. reflexivity.
Qed.

Lemma envelope_adds_only_its_keys_witness :
  ∃ body,
    res_json Api (fallback_settings Api) "2026-01-01T00:00:00.000Z"
      (JObj {[ "message" := JStr "Hello, world!" ]}) = Normal (JObj body)
    ∧ dom body
      = {[ "message" ]} ∪ {[ "status"; "operator"; "timestamp"; "version" ]}.
Proof.
  destruct (envelope_adds_only_its_keys Api (fallback_settings Api)
              "2026-01-01T00:00:00.000Z" {[ "message" := JStr "Hello, world!" ]})
    as (body & Hres & Hdom); [reflexivity|].
  exists body. split; [exact Hres|]. rewrite Hdom, dom_singleton_L. reflexivity.
Defined.

(** X13. A body that already went through the envelope goes through it
    again unchanged, at any later time and with any other settings: the
    first timestamp, operator and version stay.  Both settings are any
    value but [null]. *)
Theorem enveloped_body_is_kept (fl : flavor) (settings settings' : json)
    (now later : string) (fields : gmap string json) (first : json) :
  is_null settings = false → is_null settings' = false →
  res_json fl settings now (JObj fields) = Normal first →
  res_json fl settings' later first = Normal first.
Proof.
  intros Hs Hs'. rewrite (res_json_object fl settings now fields Hs).
  intros [= <-]. rewrite (res_json_object fl settings' later _ Hs').
  do 2 f_equal. apply map_eq. intros k.
  destruct ((fields ∪ envelope_defaults fl settings now) !! k) as [v|] eqn:Hk.
  - apply lookup_union_Some_l, Hk.
  - rewrite lookup_union_r by exact Hk.
    apply lookup_union_None in Hk as (_ & Hk).
    apply not_elem_of_dom. apply not_elem_of_dom in Hk.
    rewrite envelope_defaults_dom in *. exact Hk.
Qed.

Lemma enveloped_body_is_kept_witness :
  ∃ first,
    res_json Api (fallback_settings Api) "2026-01-01T00:00:00.000Z"
      (JObj {[ "message" := JStr "Hello, world!" ]}) = Normal first
    ∧ res_json Api (JObj {[ "version" := JStr "2.0.0" ]})
        "2026-01-02T00:00:00.000Z" first = Normal first.
Proof.
  eexists. split; [reflexivity|].
  apply (enveloped_body_is_kept Api (fallback_settings Api)
           (JObj {[ "version" := JStr "2.0.0" ]}) "2026-01-01T00:00:00.000Z"
           "2026-01-02T00:00:00.000Z" {[ "message" := JStr "Hello, world!" ]});
    reflexivity.
Defined.

Lemma array_props_lookup (items : list json) :
  ∀ k i,
    (list_to_map (imap (fun j x => (index_key (k + j), x)) items)
       : gmap string json) !! index_key (k + i)
    = items !! i.
Proof.
  induction items as [|x items IH]; intros k i; [reflexivity|].
  cbn [imap list_to_map foldr]. destruct i as [|i].
  - apply lookup_insert_eq.
  - rewrite lookup_insert_ne.
    + change ((x :: items) !! S i) with (items !! i).
      rewrite <- (IH (S k) i). rewrite Nat.add_succ_r.
      f_equal. f_equal. apply imap_ext. intros j y _. cbn.
      rewrite Nat.add_succ_r. reflexivity.
    + unfold index_key. intros H. apply pretty_nat_inj in H. lia.
Qed.

(** X14. What becomes of an array body: its element [i] is the field
    named by the decimal index [i] of the object the client receives;
    under the index of an element the array does not have, the object
    holds only what the envelope holds under that name.  The settings
    are any value but [null]. *)
Theorem array_elements_become_fields (fl : flavor) (settings : json)
    (now : string) (items : list json) :
  is_null settings = false →
  ∃ body,
    res_json fl settings now (JArr items) = Normal (JObj body)
    ∧ ∀ i, body !! index_key i
           = match items !! i with
             | Some x => Some x
             | None => envelope_defaults fl settings now !! index_key i
             end.
Proof.
  intros Hs. eexists. split; [apply res_json_array, Hs|].
  intros i. cbn [own_props].
  pose proof (array_props_lookup items 0 i) as H. cbn [Nat.add] in H.
  destruct (items !! i) as [x|] eqn:Hi.
  - apply lookup_union_Some_l. exact H.
  - apply lookup_union_r. exact H.
Qed.

Lemma array_elements_become_fields_witness :
  ∃ body,
    res_json Ladybug (fallback_settings Ladybug) "2026-01-01T00:00:00.000Z"
      (JArr [JStr "a"; JStr "b"]) = Normal (JObj body)
    ∧ body !! index_key 1 = Some (JStr "b").
Proof.
  destruct (array_elements_become_fields Ladybug (fallback_settings Ladybug)
              "2026-01-01T00:00:00.000Z" [JStr "a"; JStr "b"])
    as (body & Hres & Hi); [reflexivity|].
  exists body. split; [exact Hres|]. rewrite Hi. reflexivity.
Defined.

Lemma banner_ladybug (settings : json) :
  is_null settings = false →
  banner Ladybug settings = Normal tt
  ↔ ∃ apiSettings,
      prop (Some settings) "apiSettings" = Some apiSettings
      ∧ is_null apiSettings = false.
Proof.
  intros Hs. unfold banner. rewrite !(member_not_null settings) by exact Hs.
  cbn [mbind completion_bind].
  destruct (prop (Some settings) "apiSettings") as [a|].
  - destruct a; cbn [member mbind completion_bind]; split;
      try discriminate; try (intros _; eexists; split; reflexivity);
      try (intros (a & [= <-] & Ha); discriminate Ha); reflexivity.
  - cbn [member mbind completion_bind].
    split; [discriminate | intros (a & Ha & _); discriminate Ha].
Qed.

(** X15. The settings the server runs with, and what the envelope makes
    of them.  When settings.json is absent or cannot be parsed, the
    start-up goes on with the hardcoded settings, an [apiSettings]
    with the operator "Ladybug APIs" and nothing else (in the ladybug
    deployment the operator "AjiroDesu", the version "Ladybug bot" and
    the name "LADYBUG BOT API"): the envelope shows the operator
    "Ladybug APIs" and the version "1.0.0" (the developer "AjiroDesu"
    and the version "Ladybug bot").  When it parses, the /api deployment keeps the value
    as it is: if the value is [null], [res.json] throws for every
    object body, and otherwise it merges.  The ladybug deployment
    replaces [null] by the hardcoded settings and keeps any other
    value; with such a value its banner throws, and the start-up ends
    before the scan, unless the settings have an [apiSettings] that is
    not [null]. *)
Theorem settings_file_and_envelope (fl : flavor) (f : settings_file)
    (now : string) (fields : gmap string json) :
  let settings := load_settings fl f in
  let merged := Normal (JObj (fields ∪ envelope_defaults fl settings now)) in
  let hardcoded :=
    prop (prop (Some settings) "apiSettings") "operator"
    = Some (JStr match fl with Api => "Ladybug APIs" | Ladybug => "AjiroDesu" end)
    ∧ prop (Some settings) "version"
      = match fl with Api => None | Ladybug => Some (JStr "Ladybug bot") end
    ∧ prop (Some settings) "name"
      = match fl with Api => None | Ladybug => Some (JStr "LADYBUG BOT API") end
    ∧ envelope_defaults fl settings now !! operator_key fl
      = Some (JStr match fl with Api => "Ladybug APIs" | Ladybug => "AjiroDesu" end)
    ∧ envelope_defaults fl settings now !! "version"
      = Some (JStr match fl with Api => "1.0.0" | Ladybug => "Ladybug bot" end)
    ∧ banner fl settings = Normal tt
    ∧ res_json fl settings now (JObj fields) = merged in
  match f with
  | Absent | Unparsable => hardcoded
  | Parsed v =>
      match fl with
      | Api =>
          settings = v
          ∧ banner Api settings = Normal tt
          ∧ res_json Api settings now (JObj fields)
            = (if is_null v then Throw "TypeError: Cannot read properties of null"
               else merged)
      | Ladybug =>
          (is_null v = true → hardcoded)
          ∧ (is_null v = false →
               settings = v
               ∧ res_json Ladybug settings now (JObj fields) = merged
               ∧ (banner Ladybug settings = Normal tt
                  ↔ ∃ apiSettings,
                      prop (Some v) "apiSettings" = Some apiSettings
                      ∧ is_null apiSettings = false))
      end
  end.
Proof.
  cbn zeta. destruct f as [| |v].
  - destruct fl; repeat split; try reflexivity;
      apply res_json_object; reflexivity.
  - destruct fl; repeat split; try reflexivity;
      apply res_json_object; reflexivity.
  - destruct fl.
    + cbn [load_settings]. repeat split.
      destruct (is_null v) eqn:Hv.
      * destruct v; try discriminate Hv. reflexivity.
      * apply res_json_object, Hv.
    + cbn [load_settings]. split.
      * intros Hv. rewrite Hv. repeat split; try reflexivity.
        apply res_json_object. reflexivity.
      * intros Hv. rewrite Hv. split; [reflexivity|].
        split; [apply res_json_object, Hv|]. apply banner_ladybug, Hv.
Qed.

Lemma settings_file_and_envelope_witness :
  let now := "2026-01-01T00:00:00.000Z" in
  let hello := {[ "message" := JStr "Hello, world!" ]} : gmap string json in
  (∃ body,
     res_json Api (load_settings Api Unparsable) now (JObj hello)
     = Normal (JObj body)
     ∧ body !! "operator" = Some (JStr "Ladybug APIs")
     ∧ body !! "version" = Some (JStr "1.0.0"))
  ∧ banner Ladybug (load_settings Ladybug (Parsed (JObj {[ "name" := JStr "Mine" ]})))
    ≠ Normal tt
  ∧ banner Ladybug (load_settings Ladybug (Parsed JNull)) = Normal tt.
Proof.
  intros now hello. split; [|split].
  - pose proof (settings_file_and_envelope Api Unparsable now hello) as H.
    cbn zeta in H. destruct H as (_ & _ & _ & Hop & Hv & _ & Hres).
    eexists. split; [exact Hres|].
    split; [rewrite lookup_union_r by reflexivity; exact Hop|].
    rewrite lookup_union_r by reflexivity. exact Hv.
  - pose proof (settings_file_and_envelope Ladybug
                  (Parsed (JObj {[ "name" := JStr "Mine" ]})) now hello) as H.
    cbn zeta in H. destruct H as (_ & H).
    destruct (H eq_refl) as (_ & _ & Hb).
    intros Hok. apply Hb in Hok as (a & Ha & _). discriminate Ha.
  - pose proof (settings_file_and_envelope Ladybug (Parsed JNull) now hello) as H.
    cbn zeta in H. destruct H as (H & _).
    destruct (H eq_refl) as (_ & _ & _ & _ & _ & Hb & _). exact Hb.
Defined.

Lemma object_body_cases (data : json) :
  object_body data = true → (∃ items, data = JArr items) ∨ ∃ fields, data = JObj fields.
Proof.
  unfold object_body. destruct data; simpl; rewrite ?andb_false_r;
    try discriminate; eauto.
Qed.

Lemma res_json_null_throws (fl : flavor) (now : string) (data : json) :
  object_body data = true →
  res_json fl JNull now data = Throw "TypeError: Cannot read properties of null".
Proof.
  intros H. destruct (object_body_cases data H) as [(items & ->) | (fields & ->)];
    reflexivity.
Qed.

Section NullSettings.
Variable fl : flavor.
Variable toISOString : N → string.

Lemma status_json_null (code : nat) (data : json) (x : exchange) :
  object_body data = true →
  status_json fl JNull toISOString code data x = x.
Proof.
  intros H. unfold status_json. destruct (headersSent x); [reflexivity|].
  rewrite (res_json_null_throws fl _ data H). reflexivity.
Qed.

Lemma on_timeout_null (x : exchange) :
  unsent x → unsent (on_timeout fl JNull toISOString x).
Proof.
  intros [Hh Hc]. unfold on_timeout. rewrite Hh.
  rewrite status_json_null by (destruct fl; reflexivity).
  split; assumption.
Qed.

Lemma step_null (x : exchange) (a : action) :
  responds_objects [a] = true → unsent x →
  unsent (step fl JNull toISOString x a).
Proof.
  intros Ha Hx. destruct a as [d | code data]; cbn [step].
  - unfold pass. destruct (timeout x); try exact Hx.
    destruct (N.leb _ _); [|exact Hx].
    destruct (on_timeout_null (at_time (N.max (elapsed x) timeout_ms) x) Hx)
      as [Hh Hc]. split; assumption.
  - cbn [responds_objects forallb] in Ha. rewrite andb_true_r in Ha.
    rewrite status_json_null by exact Ha. exact Hx.
Qed.

Lemma steps_null (acts : list action) :
  ∀ x, responds_objects acts = true → unsent x →
       unsent (fold_left (step fl JNull toISOString) acts x).
Proof.
  induction acts as [|a acts IH]; intros x Ha Hx; cbn [fold_left]; [exact Hx|].
  cbn [responds_objects forallb] in Ha. apply andb_true_iff in Ha as [Ha Hacts].
  apply IH; [exact Hacts|]. apply step_null; [|exact Hx].
  cbn [responds_objects forallb]. rewrite Ha. reflexivity.
Qed.

Lemma after_await_null (name : string) (s : settlement) (x : exchange) :
  unsent x → unsent (after_await fl JNull toISOString name s x).
Proof.
  intros [Hh Hc]. destruct s as [| message | |]; cbn [after_await].
  - destruct (timeout x); split; assumption.
  - cbn [headersSent log_error]. rewrite Hh.
    rewrite status_json_null by (destruct fl; reflexivity).
    split; assumption.
  - split; assumption.
  - split; assumption.
Qed.

End NullSettings.

(** X16. With settings that are [null], no response with an object or
    array body ever reaches the client of a module route: the handler's
    own responses, the 500 response of the wrapper and the 408 response
    of the timer are all lost in the envelope middleware.  For a URL
    under the prefix the not-found handler throws, and so does the
    error handler for an error raised after the envelope middleware;
    for an error raised before it (a body that a parser refuses) the
    error handler answers through Express's own [res.json], with the
    bare error object. *)
Theorem null_settings_lose_every_object_response (fl : flavor)
    (toISOString : N → string) (name : string) (h : handler) (req : request)
    (now : string) :
  responds_objects (actions (h req)) = true →
  client (eventually fl JNull toISOString
            (route_wrapper fl JNull toISOString name h req)) = None
  ∧ (under_prefix fl (req_url req) = true →
       notFoundHandler fl JNull now req
       = Throw "TypeError: Cannot read properties of null"
       ∧ errorHandler fl JNull now req
         = Throw "TypeError: Cannot read properties of null"
       ∧ errorHandlerWith express_json fl req
         = Normal (SendJson 500 (server_error_body fl))
       ∧ ∀ accepts static_serves body_refused st,
           body_refused req = true →
           serve accepts static_serves body_refused fl JNull now st req
           = Failure (Normal (SendJson 500 (server_error_body fl)))).
Proof.
  intros Ha. split.
  - unfold route_wrapper.
    pose proof (steps_null fl toISOString (actions (h req)) armed Ha
                  (conj eq_refl eq_refl)) as H1.
    pose proof (after_await_null fl toISOString name (settles (h req)) _ H1) as H2.
    unfold eventually. destruct (timeout _); try apply H2.
    apply on_timeout_null. exact H2.
  - intros Hu. unfold notFoundHandler, errorHandler, errorHandlerWith.
    rewrite Hu. rewrite !res_json_null_throws by (destruct fl; reflexivity).
    repeat split.
    intros accepts static_serves body_refused st Hb.
    unfold serve, dispatch, errorHandlerWith. rewrite Hb, Hu. reflexivity.
Qed.

Lemma null_settings_lose_every_object_response_witness :
  let iso := fun t : N => pretty t in
  let h : handler := fun _ =>
    {| actions := [Respond 200 (JObj {[ "message" := JStr "Hello, world!" ]})];
       settles := Fulfils |} in
  let req := {| req_method := "GET"; req_url := "/api/example/hello" |} in
  client (eventually Api JNull iso (route_wrapper Api JNull iso "Hello API" h req))
  = None
  ∧ errorHandlerWith express_json Api req
    = Normal (SendJson 500
        (JObj (<["code" := JStr "INTERNAL_ERROR"]>
                 (<["message" := JStr "Internal server error"]>
                    {[ "status" := JStr "error" ]})))).
Proof.
  intros iso h req.
  destruct (null_settings_lose_every_object_response Api iso "Hello API" h req
              "2026-01-01T00:00:00.000Z" eq_refl) as (Hc & Hu).
  split; [exact Hc|].
  destruct (Hu eq_refl) as (_ & _ & He & _). exact He.
Defined.

Lemma server_error_body_fields (fl : flavor) :
  ∃ fields,
    server_error_body fl = JObj fields
    ∧ fields !! "status" = Some (JStr "error")
    ∧ fields !! "code" = Some (JStr (server_error_code fl))
    ∧ fields !! "message" = Some (JStr (internal_message fl)).
Proof. destruct fl; eexists; repeat split; reflexivity. Qed.

(** X17. An error that reaches the top-level error handler on a URL
    under the prefix is answered with the 500 response whose body has
    status "error", the generic message and the handler's own code;
    in the ladybug deployment that code differs from the one the route
    wrapper uses.  The settings are any value but [null]. *)
Theorem error_handler_answers_json (fl : flavor) (settings : json)
    (now : string) (req : request) :
  is_null settings = false →
  under_prefix fl (req_url req) = true →
  ∃ body,
    errorHandler fl settings now req = Normal (SendJson 500 (JObj body))
    ∧ body !! "status" = Some (JStr "error")
    ∧ body !! "code" = Some (JStr (server_error_code fl))
    ∧ body !! "message" = Some (JStr (internal_message fl))
    ∧ (server_error_code fl = internal_code fl ↔ fl = Api).
Proof.
  intros Hs Hu.
  destruct (server_error_body_fields fl) as (fields & Hb & Hst & Hcode & Hmsg).
  destruct (res_json_keeps fl settings now fields Hs) as (body & Hres & Hkeep).
  exists body. unfold errorHandler, errorHandlerWith. rewrite Hu, Hb, Hres.
  repeat split; auto; destruct fl; try reflexivity; discriminate.
Qed.

Lemma error_handler_answers_json_witness :
  ∃ body,
    errorHandler Ladybug (fallback_settings Ladybug) "2026-01-01T00:00:00.000Z"
      {| req_method := "POST"; req_url := "/ladybug/upload" |}
    = Normal (SendJson 500 (JObj body))
    ∧ body !! "code" = Some (JStr "LADYBUG_INTERNAL_ERROR").
Proof.
  destruct (error_handler_answers_json Ladybug (fallback_settings Ladybug)
              "2026-01-01T00:00:00.000Z"
              {| req_method := "POST"; req_url := "/ladybug/upload" |})
    as (body & Hres & _ & Hcode & _); [reflexivity | reflexivity |].
  exists body. split; assumption.
Defined.

(** X18. The health endpoint answers 200 with its own status "healthy"
    in place of the envelope's "success", its own timestamp, the uptime
    and memory figures, and the version of the settings or "1.0.0" when
    the settings have none; the envelope adds the operator.  With
    settings that are [null] it throws. *)
Theorem health_reports_healthy (settings uptime memory : json) (now : string)
    (st : loader) :
  (is_null settings = false →
     ∃ body,
       (health settings uptime memory now st).1
       = Normal (SendJson 200 (JObj body))
       ∧ body !! "status" = Some (JStr "healthy")
       ∧ body !! "uptime" = Some uptime
       ∧ body !! "memory" = Some memory
       ∧ body !! "timestamp" = Some (JStr now)
       ∧ body !! "version"
         = Some (or_default (prop (Some settings) "version") (JStr "1.0.0"))
       ∧ body !! "operator"
         = Some (or_default (prop (prop (Some settings) "apiSettings") "operator")
                   (JStr "Ladybug APIs")))
  ∧ (health JNull uptime memory now st).1
    = Throw "TypeError: Cannot read properties of null".
Proof.
  split; [|reflexivity].
  intros Hs. unfold health, health_data, send_json. cbn [fst].
  rewrite (member_not_null settings) by exact Hs.
  cbn [mbind completion_bind].
  rewrite res_json_object by exact Hs. cbn [mbind completion_bind].
  eexists. split; [reflexivity|].
  repeat split; try (apply lookup_union_Some_l; reflexivity);
    try (rewrite lookup_union_r by reflexivity; reflexivity).
Qed.

Lemma health_reports_healthy_witness :
  ∃ body,
    (health (fallback_settings Api) (JNum 12) (JObj ∅)
       "2026-01-01T00:00:00.000Z" loader_init).1
    = Normal (SendJson 200 (JObj body))
    ∧ body !! "status" = Some (JStr "healthy")
    ∧ body !! "version" = Some (JStr "1.0.0").
Proof.
  destruct (health_reports_healthy (fallback_settings Api) (JNum 12) (JObj ∅)
              "2026-01-01T00:00:00.000Z" loader_init) as (H & _).
  destruct H as (body & Hres & Hst & _ & _ & _ & Hv & _); [reflexivity|].
  exists body. repeat split; assumption.
Defined.

(** ** The listing and the histogram *)

(** X19. The listing groups the registry by category, unless a
    category is a name that every object inherits from
    [Object.prototype] ("constructor", "toString", "__proto__", ...):
    then the endpoint throws and lists nothing.  Otherwise every
    category of the registry has exactly one group; the group of a
    category has the three fields name, count and items: the category,
    the number of the modules of that category, and one item for each
    of them, in registry order, with the nine fields of the registry
    element.  The settings are any value but [null]. *)
Theorem info_groups_by_category (settings uptime : json) (now : string)
    (st : loader) :
  is_null settings = false →
  (Forall (fun m => Route.category m ∉ object_prototype) (apiModules st) →
     ∃ body groups names,
       (info settings uptime now st).1 = Normal (SendJson 200 (JObj body))
       ∧ body !! "categories" = Some (JArr groups)
       ∧ NoDup names
       ∧ (∀ c, c ∈ names ↔ c ∈ Route.category <$> apiModules st)
       ∧ Forall2 (lists (apiModules st)) groups names)
  ∧ (Exists (fun m => Route.category m ∈ object_prototype) (apiModules st) →
       (info settings uptime now st).1
       = Throw "TypeError: Cannot read properties of undefined (reading 'push')").
Proof.
  intros Hs. unfold info, send_json, info_data. cbn [fst]. split.
  - intros Hclean.
    destruct (info_loop_groups (apiModules st) Hclean)
      as (cats & -> & Hnd & Hin & Hall).
    cbn [mbind completion_bind].
    rewrite res_json_object by exact Hs. cbn [mbind completion_bind].
    eexists _, (group_json <$> cats.*2), (cats.*1).
    split; [reflexivity|].
    split; [apply lookup_union_Some_l; reflexivity|].
    split; [exact Hnd|]. split; [exact Hin|].
    clear Hnd Hin. induction Hall as [|[k g] cs Hg _ IH]; [constructor|].
    rewrite !fmap_cons. constructor; [|exact IH].
    cbn [fst snd] in *. rewrite Hg. apply group_json_lists.
  - intros Hex. rewrite (info_loop_inherited _ Hex). reflexivity.
Qed.

Lemma info_groups_by_category_witness :
  let entry name category :=
    {| Route.name := name; Route.description := "No description provided";
       Route.category := category; Route.path := "/api/x";
       Route.author := JStr "Unknown"; Route.method := "GET";
       Route.version := "1.0.0"; Route.tags := []; Route.deprecated := false;
       Route.rateLimit := JNull; Route.authentication := None;
       Route.ladybugFeature := None |} in
  let item name :=
    JObj (list_to_map
      [("name", JStr name); ("desc", JStr "No description provided");
       ("path", JStr "/api/x"); ("author", JStr "Unknown");
       ("method", JStr "GET"); ("version", JStr "1.0.0"); ("tags", JArr []);
       ("deprecated", JBool false); ("rateLimit", JNull)]) in
  let group name count items :=
    JObj (list_to_map
      [("name", JStr name); ("count", JNat count); ("items", JArr items)]) in
  let registry modules :=
    {| totalRoutes := length modules; apiModules := modules; loadErrors := [];
       registered := []; uncaught := None |} in
  let st := registry [entry "a" "Tools"; entry "b" "Fun"; entry "c" "Tools"] in
  (∃ body groups names,
     (info (fallback_settings Api) (JNum 1) "2026-01-01T00:00:00.000Z" st).1
     = Normal (SendJson 200 (JObj body))
     ∧ body !! "categories" = Some (JArr groups)
     ∧ NoDup names
     ∧ Forall2 (lists (apiModules st)) groups names
     ∧ body !! "categories"
       = Some (JArr [group "Tools" 2 [item "a"; item "c"];
                     group "Fun" 1 [item "b"]]))
  ∧ (info (fallback_settings Api) (JNum 1) "2026-01-01T00:00:00.000Z"
       (registry [entry "a" "Tools"; entry "b" "toString"])).1
    = Throw "TypeError: Cannot read properties of undefined (reading 'push')".
Proof.
  intros entry item group registry st. split.
  - destruct (info_groups_by_category (fallback_settings Api) (JNum 1)
                "2026-01-01T00:00:00.000Z" st eq_refl) as (Hok & _).
    destruct Hok as (body & groups & names & Hres & Hcat & Hnd & _ & Hall).
    { repeat constructor; apply (bool_decide_unpack _); vm_compute; exact I. }
    exists body, groups, names.
    split; [exact Hres|]. split; [exact Hcat|]. split; [exact Hnd|].
    split; [exact Hall|].
    injection Hres as <-. reflexivity.
  - destruct (info_groups_by_category (fallback_settings Api) (JNum 1)
                "2026-01-01T00:00:00.000Z"
                (registry [entry "a" "Tools"; entry "b" "toString"]) eq_refl)
      as (_ & Hthrow).
    apply Hthrow. apply Exists_cons. right. apply Exists_cons. left.
    cbn [Route.category entry]. unfold object_prototype.
    repeat (apply elem_of_cons; first [left; reflexivity | right]).
Defined.

Lemma methods_count_fold (modules : list Route.t) :
  ∀ (acc : gmap string nat) m,
    fold_left
      (fun acc module =>
         <[Route.method module := default 0 (acc !! Route.method module) + 1]> acc)
      modules acc !! m
    = match acc !! m, length (of_method m modules) with
      | Some a, n => Some (a + n)
      | None, 0 => None
      | None, n => Some n
      end.
Proof.
  unfold of_method.
  induction modules as [|r ms IH]; intros acc m.
  - cbn. destruct (acc !! m); [f_equal; lia | reflexivity].
  - cbn [fold_left]. rewrite IH, filter_cons.
    destruct (decide (Route.method r = m)) as [<- | Hne].
    + rewrite lookup_insert_eq. cbn [length].
      destruct (acc !! Route.method r); simpl; f_equal; lia.
    + rewrite lookup_insert_ne by exact Hne. reflexivity.
Qed.

(** X20. The methods field of the statistics counts the registry by
    the method as the module declared it ("GET" when it declared none):
    a method has an entry exactly when some module declared it in that
    spelling, and the entry is the number of those modules.  The
    settings are any value but [null]. *)
Theorem stats_methods_histogram (settings uptime nodeVersion : json)
    (now : string) (st : loader) :
  is_null settings = false →
  ∃ body methods,
    (stats settings uptime nodeVersion now st).1
    = Normal (SendJson 200 (JObj body))
    ∧ body !! "methods" = Some (JObj methods)
    ∧ ∀ m, methods !! m
           = match length (of_method m (apiModules st)) with
             | 0 => None
             | n => Some (JNat n)
             end.
Proof.
  intros Hs. unfold stats, send_json, stats_data. cbn [fst].
  rewrite res_json_object by exact Hs. cbn [mbind completion_bind].
  eexists _, _. split; [reflexivity|].
  split; [apply lookup_union_Some_l; reflexivity|].
  intros m. rewrite lookup_fmap. unfold methods_count.
  rewrite methods_count_fold, lookup_empty.
  destruct (length (of_method m (apiModules st))); reflexivity.
Qed.

Lemma stats_methods_histogram_witness :
  let entry method :=
    {| Route.name := "n"; Route.description := "No description provided";
       Route.category := "Uncategorized"; Route.path := "/api/x";
       Route.author := JStr "Unknown"; Route.method := method;
       Route.version := "1.0.0"; Route.tags := []; Route.deprecated := false;
       Route.rateLimit := JNull; Route.authentication := None;
       Route.ladybugFeature := None |} in
  let st := {| totalRoutes := 3;
               apiModules := [entry "GET"; entry "get"; entry "GET"];
               loadErrors := []; registered := []; uncaught := None |} in
  ∃ body methods,
    (stats (fallback_settings Api) (JNum 1) (JStr "v20.11.0")
       "2026-01-01T00:00:00.000Z" st).1
    = Normal (SendJson 200 (JObj body))
    ∧ body !! "methods" = Some (JObj methods)
    ∧ methods !! "GET" = Some (JNat 2)
    ∧ methods !! "get" = Some (JNat 1)
    ∧ methods !! "post" = None.
Proof.
  intros entry st.
  destruct (stats_methods_histogram (fallback_settings Api) (JNum 1)
              (JStr "v20.11.0") "2026-01-01T00:00:00.000Z" st)
    as (body & methods & Hres & Hm & Hall); [reflexivity|].
  exists body, methods. split; [exact Hres|]. split; [exact Hm|].
  rewrite !Hall. repeat split; reflexivity.
Defined.

(** ** What is logged, and what is counted *)

Section ConsoleFacts.
Variable fl : flavor.
Variable settings : json.
Variable toISOString : N → string.

Lemma status_json_console (code : nat) (data : json) (x : exchange) :
  console (status_json fl settings toISOString code data x) = console x.
Proof.
  unfold status_json. destruct (headersSent x); [reflexivity|].
  destruct (res_json _ _ _ _); reflexivity.
Qed.

Lemma on_timeout_console (x : exchange) :
  console (on_timeout fl settings toISOString x) = console x.
Proof.
  unfold on_timeout. cbn [console with_timer].
  destruct (headersSent x); [reflexivity | apply status_json_console].
Qed.

Lemma step_console (x : exchange) (a : action) :
  console (step fl settings toISOString x a) = console x.
Proof.
  destruct a as [d | code data]; cbn [step].
  - unfold pass. destruct (timeout x); try reflexivity.
    destruct (N.leb _ _); [|reflexivity].
    cbn [console at_time]. rewrite on_timeout_console. reflexivity.
  - apply status_json_console.
Qed.

Lemma steps_console (acts : list action) :
  ∀ x, console (fold_left (step fl settings toISOString) acts x) = console x.
Proof.
  induction acts as [|a acts IH]; intros x; cbn [fold_left]; [reflexivity|].
  rewrite IH. apply step_console.
Qed.

Lemma eventually_console (x : exchange) :
  console (eventually fl settings toISOString x) = console x.
Proof.
  unfold eventually. destruct (timeout x); try reflexivity.
  rewrite on_timeout_console. reflexivity.
Qed.

End ConsoleFacts.

(** X21. What the wrapper writes to the error console.  When the
    handler rejects with an error that has a message, one line: the
    cross mark, "Error in", the name of the module, a colon and the
    message (after a ladybug in the ladybug deployment), whether or not
    a response had been sent.  When it rejects with [null] or
    [undefined], nothing: the line is lost with the read of
    [error.message].  A handler that fulfils or stays pending writes
    no error line, and neither does the timer. *)
Theorem handler_error_is_logged_once (fl : flavor) (settings : json)
    (toISOString : N → string) (name : string) (h : handler) (req : request) :
  let x := route_wrapper fl settings toISOString name h req in
  console x
  = match settles (h req) with
    | Rejects message =>
        [match fl with
         | Api => "❌ Error in " +:+ name +:+ ": " +:+ message
         | Ladybug => "🐞 ❌ Error in " +:+ name +:+ ": " +:+ message
         end]
    | RejectsNullish | Fulfils | Pending => []
    end
  ∧ console (eventually fl settings toISOString x) = console x.
Proof.
  cbn zeta. split; [|apply eventually_console].
  unfold route_wrapper. destruct (settles (h req)) as [| message | |];
    cbn [after_await].
  - destruct (timeout _); cbn [console with_timer];
      apply (steps_console fl settings toISOString _ armed).
  - destruct (headersSent _); [|rewrite status_json_console];
      cbn [console log_error];
      rewrite (steps_console fl settings toISOString _ armed);
      destruct fl; reflexivity.
  - apply (steps_console fl settings toISOString _ armed).
  - apply (steps_console fl settings toISOString _ armed).
Qed.

Section WalkFacts.
Variable fl : flavor.
Variable settings : json.
Variable clock : nat → string.

Lemma load_file_stops (filePath : string) (content : required) (st : loader) :
  uncaught (load_file fl settings clock filePath content st) = None
  ↔ uncaught st = None ∧ content ≠ RequireThrowsNullish.
Proof.
  unfold load_file. destruct (uncaught st) as [message|] eqn:Hu.
  - rewrite Hu. split; [discriminate | intros [H _]; discriminate H].
  - destruct (load_module fl settings content) as [[route info]|message|] eqn:Hc.
    + split; [|reflexivity]. intros _. split; [reflexivity|].
      intros ->. discriminate Hc.
    + split; [|reflexivity]. intros _. split; [reflexivity|].
      intros ->. discriminate Hc.
    + apply load_module_nullish in Hc. subst content.
      split; [discriminate | intros [_ H]; contradiction].
Qed.

(** What stops a walk. *)
Lemma visit_stops (e : entry) :
  ∀ dir st,
    uncaught (visit fl settings clock dir e st) = None
    ↔ uncaught st = None ∧ stops e = false.
Proof.
  induction e as [name children IH | name content | name | name msg]
    using entry_forall_ind; intros dir st; cbn [visit stops].
  - revert st. induction IH as [|c cs Hc _ IHcs]; intros st;
      cbn [fold_left existsb].
    + tauto.
    + rewrite IHcs, Hc, orb_false_iff. tauto.
  - destruct (String.eqb (extname name) ".js"); cbn [andb]; [|tauto].
    rewrite load_file_stops.
    destruct content; split; intros [H1 H2]; split; congruence.
  - tauto.
  - destruct (uncaught st) eqn:Hu; [rewrite Hu|];
      split; try discriminate; intros [H1 H2]; discriminate.
Qed.

Lemma loadModules_stops (dir : string) (files : list entry) (st : loader) :
  uncaught (loadModules fl settings clock dir (Some files) st) = None
  ↔ uncaught st = None ∧ existsb stops files = false.
Proof.
  unfold loadModules. revert st.
  induction files as [|e es IH]; intros st; cbn [fold_left existsb].
  - tauto.
  - rewrite IH, visit_stops, orb_false_iff. tauto.
Qed.

End WalkFacts.

(** X22. Every ".js" file a finished walk meets is accounted for
    exactly once.  A walk finishes unless it meets an entry it cannot
    read or a ".js" file whose top level throws [null] or [undefined].
    After a walk that finished, the counter of loaded routes and the
    number of recorded errors add up to the number of ".js" files in
    the tree; and after any walk, finished or not, the application has
    as many module routes as the counter says, which is the length of
    the registry. *)
Theorem every_scanned_file_is_counted_once (fl : flavor) (settings : json)
    (clock : nat → string) (dir : string) (files : list entry) :
  let st := loadModules fl settings clock dir (Some files) loader_init in
  (uncaught st = None ↔ existsb stops files = false)
  ∧ (uncaught st = None →
       totalRoutes st + length (loadErrors st) = length (scan dir files)
       ∧ totalRoutes st
         = length (filter (fun f => loads fl settings f.2 = true) (scan dir files)))
  ∧ length (registered st) = totalRoutes st
  ∧ totalRoutes st = length (apiModules st).
Proof.
  cbn zeta. split; [|split].
  - rewrite loadModules_stops. cbn [uncaught loader_init]. tauto.
  - intros Hu.
    destruct (scan_state fl settings clock dir files Hu) as (Hm & Hr & Ht & He).
    destruct (loaded_routes_count fl settings (scan dir files)) as (Hn & Hsum & _).
    rewrite Ht, He. unfold expected_errors. rewrite length_imap.
    split; [exact Hsum | exact Hn].
  - destruct (counter_is_registry_length fl settings clock) as (H & _).
    destruct (H dir (Some files)) as (H1 & H2). split; assumption.
Qed.

Lemma every_scanned_file_is_counted_once_witness :
  let hello := fun _ : request =>
    {| actions := [Respond 200 (JObj {[ "message" := JStr "Hello, world!" ]})];
       settles := Fulfils |} in
  let file name :=
    Returned (Some {| meta := Some
      {| Meta.path := Some "/example/hello"; Meta.name := name;
         Meta.method := Some "GET"; Meta.description := None;
         Meta.category := Some "Example"; Meta.author := None;
         Meta.version := None; Meta.tags := None; Meta.deprecated := None;
         Meta.rateLimit := None; Meta.authentication := None;
         Meta.ladybugFeature := None |};
      onStart := Some hello |}) in
  let files :=
    [Directory "example"
       [RegularFile "draft.js" (file None);
        RegularFile "hello.js" (file (Some "Hello API"));
        RegularFile "notes.txt" (RequireThrows "never required");
        RegularFile "syntax.js" (RequireThrows "Unexpected token")];
     Special "socket"] in
  let st := loadModules Api (fallback_settings Api) (fun k => pretty k)
              "/srv/api" (Some files) loader_init in
  totalRoutes st + length (loadErrors st) = 3
  ∧ totalRoutes st = 1
  ∧ length (registered st) = 1.
Proof.
  intros hello file files st.
  destruct (every_scanned_file_is_counted_once Api (fallback_settings Api)
              (fun k => pretty k) "/srv/api" files) as (Hu & Hsum & Hr & _).
  destruct Hsum as (Hsum & Hn); [apply Hu; reflexivity|].
  split; [exact Hsum|]. split; [exact Hn|].
  exact (eq_trans Hr Hn).
Defined.

(** X23. What the statistics and the listing report of a scan.  After
    a scan that nothing stopped, with N the number of its ".js" files
    that load, E the number of those that do not and M the number of
    different categories among the loading ones (the category a module
    declares, or "Uncategorized"), [/api/stats] reports totalRoutes N,
    categories M and loadErrors E; and when no category is a name of
    [Object.prototype], the summary of [/api/info] reports
    totalEndpoints N, totalCategories M and loadErrors E.  The settings
    are any value but [null]. *)
Theorem stats_and_info_report_the_scan (settings : json) (clock : nat → string)
    (dir : string) (files : list entry)
    (uptime nodeVersion : json) (now : string) :
  let st := loadModules Api settings clock dir (Some files) loader_init in
  let scanned := scan dir files in
  let N := length (filter (fun f => loads Api settings f.2 = true) scanned) in
  let E := length (filter (fun f => loads Api settings f.2 = false) scanned) in
  let categories := scan_categories Api settings scanned in
  let M := distinct categories in
  is_null settings = false →
  existsb stops files = false →
  (∃ body,
     (stats settings uptime nodeVersion now st).1
     = Normal (SendJson 200 (JObj body))
     ∧ body !! "totalRoutes" = Some (JNat N)
     ∧ body !! "categories" = Some (JNat M)
     ∧ body !! "loadErrors" = Some (JNat E))
  ∧ (Forall (fun c => c ∉ object_prototype) categories →
       ∃ body summary,
         (info settings uptime now st).1 = Normal (SendJson 200 (JObj body))
         ∧ body !! "summary" = Some (JObj summary)
         ∧ summary !! "totalEndpoints" = Some (JNat N)
         ∧ summary !! "totalCategories" = Some (JNat M)
         ∧ summary !! "loadErrors" = Some (JNat E)).
Proof.
  cbn zeta. intros Hs Hstops.
  assert (uncaught (loadModules Api settings clock dir (Some files) loader_init)
          = None) as Hu
    by (apply loadModules_stops; split; [reflexivity | exact Hstops]).
  destruct (scan_state Api settings clock dir files Hu) as (Hm & _ & Ht & He).
  destruct (loaded_routes_count Api settings (scan dir files)) as (Hn & _ & Hc).
  set (st := loadModules Api settings clock dir (Some files) loader_init) in *.
  assert (length (loadErrors st)
          = length (filter (fun f => loads Api settings f.2 = false)
                      (scan dir files))) as HE
    by (rewrite He; apply length_imap).
  split.
  - unfold stats, send_json, stats_data. cbn [fst].
    rewrite res_json_object by exact Hs. cbn [mbind completion_bind].
    eexists. split; [reflexivity|].
    rewrite Ht, HE, Hm, set_size_distinct, Hc, Hn.
    repeat split; apply lookup_union_Some_l; reflexivity.
  - intros Hclean. unfold info, send_json, info_data. cbn [fst].
    destruct (info_loop_groups (apiModules st)) as (cats & -> & Hnd & Hin & _).
    { rewrite Hm. apply Forall_forall. intros m Hmin.
      rewrite Forall_forall in Hclean. apply Hclean. rewrite <- Hc.
      apply list_elem_of_fmap_2. exact Hmin. }
    cbn [mbind completion_bind].
    rewrite res_json_object by exact Hs. cbn [mbind completion_bind].
    eexists _, _. split; [reflexivity|].
    split; [apply lookup_union_Some_l; reflexivity|].
    assert (length cats.*1 = distinct (Route.category <$> apiModules st)) as Hcount.
    { unfold distinct. apply Permutation_length, NoDup_Permutation.
      - exact Hnd.
      - apply NoDup_remove_dups.
      - intros c. rewrite Hin, elem_of_remove_dups. reflexivity. }
    rewrite Hcount, HE, Hm, Hc, Hn.
    repeat split; reflexivity.
Qed.

Lemma stats_and_info_report_the_scan_witness :
  let respond text : handler := fun _ =>
    {| actions := [Respond 200 (JObj {[ "message" := JStr text ]})];
       settles := Fulfils |} in
  let file name path category text :=
    Returned (Some {| meta := Some
      {| Meta.path := Some path; Meta.name := name;
         Meta.method := Some "GET"; Meta.description := None;
         Meta.category := category; Meta.author := Some "Mr Ntando Ofc";
         Meta.version := None; Meta.tags := None; Meta.deprecated := None;
         Meta.rateLimit := None; Meta.authentication := None;
         Meta.ladybugFeature := None |};
      onStart := Some (respond text) |}) in
  let files :=
    [Directory "example"
       [RegularFile "draft.js" (file None "/example/draft" None "");
        RegularFile "goodbye.js"
          (file (Some "Goodbye API") "/example/goodbye" (Some "Example")
             "Goodbye, world!");
        RegularFile "hello.js"
          (file (Some "Hello API") "/example/hello" (Some "Example")
             "Hello, world!");
        RegularFile "ping.js" (file (Some "Ping") "/ping" None "pong")]] in
  let st := loadModules Api (fallback_settings Api) (fun k => pretty k)
              "/srv/api" (Some files) loader_init in
  (∃ body,
     (stats (fallback_settings Api) (JNum 12) (JStr "v20.11.0")
        "2026-01-01T00:00:00.000Z" st).1
     = Normal (SendJson 200 (JObj body))
     ∧ body !! "totalRoutes" = Some (JNat 3)
     ∧ body !! "categories" = Some (JNat 2)
     ∧ body !! "loadErrors" = Some (JNat 1))
  ∧ (∃ body summary,
       (info (fallback_settings Api) (JNum 12) "2026-01-01T00:00:00.000Z" st).1
       = Normal (SendJson 200 (JObj body))
       ∧ body !! "summary" = Some (JObj summary)
       ∧ summary !! "totalCategories" = Some (JNat 2)
       ∧ summary !! "loadErrors" = Some (JNat 1)).
Proof.
  intros respond file files st.
  destruct (stats_and_info_report_the_scan (fallback_settings Api)
              (fun k => pretty k) "/srv/api" files (JNum 12) (JStr "v20.11.0")
              "2026-01-01T00:00:00.000Z" eq_refl eq_refl)
    as ((body & Hres & Hn & Hm & He) & Hinfo).
  split.
  - exists body. split; [exact Hres|].
    repeat split; [rewrite Hn | rewrite Hm | rewrite He]; reflexivity.
  - destruct Hinfo as (body' & summary & Hres' & Hsum & _ & Hm' & He').
    { repeat constructor; apply (bool_decide_unpack _); vm_compute; exact I. }
    exists body', summary. split; [exact Hres'|]. split; [exact Hsum|].
    split; [rewrite Hm' | rewrite He']; reflexivity.
Defined.
